(** * Cordova project synchronisation (tools/cordova/project.js)

    A shallow embedding of the [CordovaProject] class: the version
    specifier resolver ([convertToGitUrl], [targetForPlugin]), the command
    execution context ([runCommands]) and the two reconcilers
    ([ensurePlatformsAreSynchronized], [ensurePluginsAreSynchronized]),
    followed by the properties the specification states about them. *)

From Stdlib Require Import String Ascii List Bool Arith Lia ZArith.
Import ListNotations.

Set Implicit Arguments.
Local Open Scope string_scope.
Local Open Scope list_scope.

(** String concatenation, kept apart from the append of lists. *)
Infix "+++" := String.append (right associativity, at level 60).

(** ** JavaScript regular expressions

    The two regular expression literals of the file are kept as syntax and
    run by a backtracking matcher.  A matcher maps a position in the subject
    string to the list of positions it can end at, in the order in which a
    backtracking engine tries them; the head of the list is the match
    JavaScript reports. *)
Module Regex.

Inductive regex : Type :=
| Eps                              (* the empty pattern *)
| Bol                              (* [^], without the multiline flag *)
| Chr (c : ascii)                  (* a literal character *)
| Dot                              (* [.]: anything but a line terminator *)
| Cls (p : ascii -> bool)          (* a character class [[...]] *)
| Seq (r1 r2 : regex)              (* r1 r2 *)
| Opt (r : regex)                  (* r?  (greedy) *)
| Star (r : regex)                 (* r*  (greedy) *)
| PlusLazy (r : regex)             (* r+? *)
| Rep (n : nat) (r : regex)        (* r{n} *)
| Grp (r : regex).                 (* ( r ), a capturing group *)

(** A literal run of characters. *)
Fixpoint Lit (s : string) : regex :=
  match s with
  | EmptyString => Eps
  | String c s' => Seq (Chr c) (Lit s')
  end.

(** Position of the matcher: the part of the subject already consumed, the
    part still ahead and the groups captured so far (in order of their
    closing parenthesis, which for the patterns below is also the order of
    their opening one). *)
Record mstate : Type := MState {
  seen : string;
  rest : string;
  groups : list string
}.

(** Line terminators among the 8-bit characters: LF and CR. *)
Definition isLineTerminator (c : ascii) : bool :=
  Ascii.eqb c "010"%char || Ascii.eqb c "013"%char.

(** Consume one character if it satisfies [p]. *)
Definition eat (p : ascii -> bool) (st : mstate) : list mstate :=
  match rest st with
  | EmptyString => []
  | String a tl =>
      if p a then [MState (seen st +++ String a EmptyString) tl (groups st)]
      else []
  end.

Section Iteration.
Variable step : mstate -> list mstate.

(** [r+?]: one iteration, then stop before trying one more. *)
Fixpoint plusLazy (fuel : nat) (st : mstate) : list mstate :=
  match fuel with
  | O => []
  | S fuel' =>
      flat_map (fun st' => st' :: plusLazy fuel' st') (step st)
  end.

(** [r*]: as many iterations as possible, then fewer.  An iteration that
    consumes nothing ends the loop, as in ECMAScript. *)
Fixpoint starGreedy (fuel : nat) (st : mstate) : list mstate :=
  match fuel with
  | O => [st]
  | S fuel' =>
      flat_map (fun st' =>
                  if Nat.ltb (String.length (rest st')) (String.length (rest st))
                  then starGreedy fuel' st' else [])
               (step st) ++ [st]
  end.

(** [r{n}] *)
Fixpoint times (n : nat) (st : mstate) : list mstate :=
  match n with
  | O => [st]
  | S n' => flat_map (times n') (step st)
  end.
End Iteration.

(** The text a group captured: what was consumed between two positions. *)
Definition captured (before after : mstate) : string :=
  substring (String.length (seen before))
            (String.length (seen after) - String.length (seen before))
            (seen after).

Fixpoint exec (r : regex) (st : mstate) : list mstate :=
  match r with
  | Eps => [st]
  | Bol => match seen st with EmptyString => [st] | _ => [] end
  | Chr c => eat (Ascii.eqb c) st
  | Dot => eat (fun a => negb (isLineTerminator a)) st
  | Cls p => eat p st
  | Seq r1 r2 => flat_map (exec r2) (exec r1 st)
  | Opt r1 => exec r1 st ++ [st]
  | Star r1 => starGreedy (exec r1) (String.length (rest st)) st
  | PlusLazy r1 => plusLazy (exec r1) (S (String.length (rest st))) st
  | Rep n r1 => times (exec r1) n st
  | Grp r1 =>
      map (fun st' =>
             MState (seen st') (rest st') (groups st' ++ [captured st st']))
          (exec r1 st)
  end.

(** Leftmost match: try every start position from the left. *)
Fixpoint searchFrom (r : regex) (pre s : string) : option (mstate * mstate) :=
  let start := MState pre s [] in
  match exec r start with
  | st :: _ => Some (start, st)
  | [] =>
      match s with
      | EmptyString => None
      | String a tl => searchFrom r (pre +++ String a EmptyString) tl
      end
  end.

(** [s.match(re)] for a pattern without the global flag: [null], or the
    array holding the whole match followed by the captured groups. *)
Definition re_match (r : regex) (s : string) : option (list string) :=
  match searchFrom r EmptyString s with
  | Some (start, st) => Some (captured start st :: groups st)
  | None => None
  end.

(** [re.test(s)] *)
Definition re_test (r : regex) (s : string) : bool :=
  match searchFrom r EmptyString s with
  | Some _ => true
  | None => false
  end.

End Regex.

Import Regex.

(** ** JavaScript values and objects *)

(** Truthiness of a string: only the empty string is falsy. *)
Definition truthy (s : string) : bool := negb (String.eqb s "").

(** An argument with a default value: the default applies when the argument
    is omitted or [undefined], not when it is [null]. *)
Inductive jsarg (A : Type) : Type :=
| Undefined
| Null
| Given (a : A).
Arguments Undefined {A}.
Arguments Null {A}.

(** A plain object used as a map from property names to values, its own
    properties in creation order. *)
Module Obj.
Definition t (V : Type) : Type := list (string * V).

Definition keys {V} (o : t V) : list string := map fst o.

Fixpoint get {V} (o : t V) (k : string) : option V :=
  match o with
  | [] => None
  | (k', v) :: tl => if String.eqb k' k then Some v else get tl k
  end.

Definition has {V} (o : t V) (k : string) : bool :=
  match get o k with Some _ => true | None => false end.

(** [o[k] = v]: an existing property keeps its place. *)
Fixpoint set {V} (o : t V) (k : string) (v : V) : t V :=
  match o with
  | [] => [(k, v)]
  | (k', v') :: tl =>
      if String.eqb k' k then (k, v) :: tl else (k', v') :: set tl k v
  end.

(** [delete o[k]] *)
Definition remove {V} (o : t V) (k : string) : t V :=
  filter (fun kv => negb (String.eqb (fst kv) k)) o.

Definition isEmpty {V} (o : t V) : bool :=
  match o with [] => true | _ => false end.

Definition size {V} (o : t V) : nat := List.length o.

(** Property names are unique in an object. *)
Definition wf {V} (o : t V) : Prop := NoDup (keys o).
End Obj.

(** The functions of underscore the file uses, on arrays. *)
Module Underscore.
Definition contains (l : list string) (x : string) : bool :=
  existsb (String.eqb x) l.

Definition isEmpty {A} (l : list A) : bool :=
  match l with [] => true | _ => false end.

(** [_.intersection(a, b)]: the items of [a] found in [b], each once, in
    the order of [a]. *)
Fixpoint intersection_from (result a b : list string) : list string :=
  match a with
  | [] => result
  | item :: tl =>
      if contains result item then intersection_from result tl b
      else if contains b item then intersection_from (result ++ [item]) tl b
      else intersection_from result tl b
  end.
Definition intersection (a b : list string) : list string :=
  intersection_from [] a b.

(** [_.object(pairs)] *)
Definition object {V} (pairs : list (string * V)) : Obj.t V :=
  fold_left (fun o kv => Obj.set o (fst kv) (snd kv)) pairs [].
End Underscore.

(** [s.split(sep)] for a one-character separator. *)
Fixpoint split_from (sep : ascii) (cur s : string) : list string :=
  match s with
  | EmptyString => [cur]
  | String c tl =>
      if Ascii.eqb c sep then cur :: split_from sep EmptyString tl
      else split_from sep (cur +++ String c EmptyString) tl
  end.
Definition split (sep : ascii) (s : string) : list string :=
  split_from sep EmptyString s.

(** [s.substr(n)] *)
Definition substr (n : nat) (s : string) : string :=
  substring n (String.length s - n) s.

(** ** Errors, commands and the world *)

Inductive exn : Type :=
| CordovaError (message : string)
| ExitWithCode (code : Z)
| Error (message : string)
| TypeError.           (* thrown by the engine; its message is the engine's *)

Inductive outcome (A : Type) : Type :=
| Returned (a : A)
| Threw (e : exn).
Arguments Threw {A} e.

(** [error instanceof CordovaError] *)
Definition instanceofCordovaError (e : exn) : bool :=
  match e with CordovaError _ => true | _ => false end.

(** The options object of [get defaultOptions]. *)
Record options : Type := Options { silent : bool; verbose : bool }.

(** The calls into [cordova.raw] the reconcilers make. *)
Inductive command : Type :=
| platform_add (platform : string) (o : options)
| platform_rm (platform : string) (o : options)
| plugin_add (target : string) (o : options)
| plugin_rm (plugins : list string) (o : options).

(** An entry of [plugins/fetch.json]: its [source] descriptor. *)
Inductive source : Type :=
| registry (id : string)
| git (url ref : string)
| local (path : string)
| other_source.

Definition environ : Type := list (string * string).

(** Process-wide state and the build project on disk. *)
Record process (Disk : Type) : Type := Process {
  cwd : string;            (* process.cwd() *)
  spawnEnv : environ;      (* the environment given to superspawn *)
  disk : Disk
}.
Arguments Process {Disk}.

(** What the program does that can be observed from outside. *)
Inductive event : Type :=
| ConsoleDebug (message : string) (detail : list string)
| ConsoleError (message : string)
| Call (c : command) (failure : option exn)
| EnterJob (title : string)
| ReportProgress (current end_ : nat).

(** What this file imports: the helpers of the sibling modules
    ([utils/utils.js], [fs/files.js], [cordova/index.js]), Node's [path],
    and the Cordova library with the build project it works on. *)
Class Externals : Type := {
  isUrlWithSha : string -> bool;
  isUrlWithFileScheme : string -> bool;
  isPathRelative : string -> bool;
  convertToOSPath : string -> string;
  pathJoin : string -> string -> string;
  getCurrentNodeBinDir : string;
  currentEnvWithPathsAdded : list string -> environ;
  path_relative : string -> string -> string;
  path_resolve : string -> string -> string;
  AVAILABLE_PLATFORMS : list string;
  Disk : Type;
  cordova_util_listPlatforms : Disk -> string -> list string;
  readFetchJson : Disk -> string -> outcome (Obj.t source);
  cordova_raw : command -> process Disk -> option exn * process Disk
}.

Record world `{Externals} : Type := World {
  proc : process Disk;
  consoleVerbose : bool;       (* Console.verbose *)
  out : list event
}.
Arguments World {_} _ _ _.

(** ** Computations: state and exceptions *)

Definition M `{Externals} (A : Type) : Type := world -> outcome A * world.

Section Monad.
Context `{Externals}.

Definition ret {A} (a : A) : M A := fun w => (Returned a, w).

Definition bind {A B} (m : M A) (k : A -> M B) : M B :=
  fun w =>
    match m w with
    | (Returned a, w') => k a w'
    | (Threw e, w') => (Threw e, w')
    end.

Definition throw {A} (e : exn) : M A := fun w => (Threw e, w).

(** A computation without effects that may throw. *)
Definition lift {A} (o : outcome A) : M A := fun w => (o, w).

(** [try { body } catch (error) { handler } finally { finalizer }] *)
Definition try_catch_finally {A}
    (body : M A) (handler : exn -> M A) (finalizer : M unit) : M A :=
  fun w =>
    let (r, w1) :=
      match body w with
      | (Returned a, w') => (Returned a, w')
      | (Threw e, w') => handler e w'
      end in
    match finalizer w1 with
    | (Returned _, w2) => (r, w2)
    | (Threw e, w2) => (Threw e, w2)
    end.

Definition emit (e : event) : M unit :=
  fun w => (Returned tt, World (proc w) (consoleVerbose w) (out w ++ [e])).
End Monad.

Notation "x <- c1 ;; c2" := (bind c1 (fun x => c2))
  (at level 61, c1 at next level, right associativity).
Notation "c1 ;; c2" := (bind c1 (fun _ => c2))
  (at level 61, right associativity).

(** Exceptions alone, for the code that touches no state. *)
Definition obind {A B} (o : outcome A) (k : A -> outcome B) : outcome B :=
  match o with
  | Returned a => k a
  | Threw e => Threw e
  end.

(** ** The regular expressions of [convertToGitUrl] *)

Definition isLowerHex (c : ascii) : bool :=
  (("0" <=? c)%char && (c <=? "9")%char) ||
  (("a" <=? c)%char && (c <=? "f")%char).

(** [/^https?:\/\/github.com\/(.+?)\/(.+?)\/tarball\/([0-9a-f]{40})/]; the
    dot of [github.com] is not escaped in the source. *)
Definition tarballUrlPattern : regex :=
  Seq Bol (Seq (Lit "http") (Seq (Opt (Chr "s")) (Seq (Lit "://github")
  (Seq Dot (Seq (Lit "com/") (Seq (Grp (PlusLazy Dot)) (Seq (Chr "/")
  (Seq (Grp (PlusLazy Dot)) (Seq (Lit "/tarball/")
  (Grp (Rep 40 (Cls isLowerHex)))))))))))).

(** [/\.git/] *)
Definition dotGitPattern : regex := Lit ".git".

Definition tarballUrlMessage : string :=
  "Meteor no longer supports installing Cordova plugins from tarball URLs. Cordova requires a Git URL to install from.".

Definition convertToGitUrl (url : string) : outcome string :=
  match re_match tarballUrlPattern url with
  | Some match_ =>
      let organization := nth 1 match_ "" in
      let repository := nth 2 match_ "" in
      let sha := nth 3 match_ "" in
      Returned ("https://github.com/" +++ organization +++ "/" +++ repository
                  +++ ".git#" +++ sha)
  | None =>
      if re_test dotGitPattern url then Returned url
      else Threw (Error tarballUrlMessage)
  end.

(** ** The project *)

Record CordovaProject : Type := {
  projectDir : string;                  (* projectContext.projectDir *)
  cordovaPlatformsInApp : list string;  (* platformList.getCordovaPlatforms() *)
  projectRoot : string;
  appName : string;
  pluginsDir : string
}.

Section Project.
Context `{Externals}.
Variable this : CordovaProject.

(** *** Cordova commands support *)

Definition defaultOptions : M options :=
  fun w => (Returned (Options (negb (consoleVerbose w)) (consoleVerbose w)), w).

Definition defaultPaths : list string := [getCurrentNodeBinDir].

Definition defaultEnvWithPathsAdded (extraPaths : list string) : environ :=
  currentEnvWithPathsAdded (extraPaths ++ defaultPaths).

Definition process_cwd : M string := fun w => (Returned (cwd (proc w)), w).

(** [process.chdir(dir)], for a directory that exists. *)
Definition process_chdir (dir : string) : M unit :=
  fun w =>
    (Returned tt,
     World (Process dir (spawnEnv (proc w)) (disk (proc w)))
           (consoleVerbose w) (out w)).

Definition superspawn_setEnv (env : environ) : M unit :=
  fun w =>
    (Returned tt,
     World (Process (cwd (proc w)) env (disk (proc w)))
           (consoleVerbose w) (out w)).

(** A call into [cordova.raw], awaited. *)
Definition raw (c : command) : M unit :=
  fun w =>
    let (failure, p) := cordova_raw c (proc w) in
    (match failure with None => Returned tt | Some e => Threw e end,
     World p (consoleVerbose w) (out w ++ [Call c failure])).

(** [chalk.green(s)]; the colour codes around [s] are left out. *)
Definition chalk_green (s : string) : string := s.

(** [env] and [cwd] have default values; a [null] working directory is
    falsy, and a [null] environment is taken as an empty one. *)
Definition runCommands {A} (asyncFunc : M A)
    (env : jsarg environ) (cwd : jsarg string) : M A :=
  let env := match env with
             | Given e => e
             | Null => []
             | Undefined => defaultEnvWithPathsAdded []
             end in
  let cwd := match cwd with
             | Given d => d
             | Null => ""
             | Undefined => projectRoot this
             end in
  oldCwd <- process_cwd ;;
  (if truthy cwd then process_chdir (convertToOSPath cwd) else ret tt) ;;
  superspawn_setEnv env ;;
  try_catch_finally
    asyncFunc
    (fun error =>
       if instanceofCordovaError error then
         emit (ConsoleError
                 ("cordova: " +++
                  match error with CordovaError m => m | _ => "" end)) ;;
         emit (ConsoleError (chalk_green
                 "Try running again with the --verbose option to help diagnose the issue.")) ;;
         throw (ExitWithCode 1)
       else throw error)
    (if truthy oldCwd then process_chdir oldCwd else ret tt).

(** *** Platforms *)

Definition listInstalledPlatforms : M (list string) :=
  fun w =>
    (Returned (cordova_util_listPlatforms (disk (proc w))
                 (convertToOSPath (projectRoot this))), w).

Definition addPlatform (platform : string) : M unit :=
  runCommands (o <- defaultOptions ;; raw (platform_add platform o))
              Undefined Undefined.

Definition removePlatform (platform : string) : M unit :=
  runCommands (o <- defaultOptions ;; raw (platform_rm platform o))
              Undefined Undefined.

Fixpoint forEach {X} (l : list X) (f : X -> M unit) : M unit :=
  match l with
  | [] => ret tt
  | x :: tl => f x ;; forEach tl f
  end.

(** The caller is inside a [buildmessage] capture: the assertion that opens
    the method holds.  The default value stands for [undefined] only:
    [null] is not iterable, and the first loop throws over it. *)
Definition ensurePlatformsAreSynchronized
    (platforms : jsarg (list string)) : M unit :=
  let platforms := match platforms with
                   | Given l => Some l
                   | Null => None
                   | Undefined => Some (cordovaPlatformsInApp this)
                   end in
  installedPlatforms <- listInstalledPlatforms ;;
  match platforms with
  | None => throw TypeError
  | Some platforms =>
      forEach platforms (fun platform =>
        if Underscore.contains installedPlatforms platform then ret tt
        else addPlatform platform) ;;
      forEach installedPlatforms (fun platform =>
        if negb (Underscore.contains platforms platform)
           && Underscore.contains AVAILABLE_PLATFORMS platform
        then removePlatform platform
        else ret tt)
  end.

(** *** Plugins *)

(** The version [listInstalledPlugins] derives from a [source]. *)
Definition versionOfSource (s : source) : option string :=
  match s with
  | registry id => nth_error (split "@" id) 1
  | git url ref => Some (url +++ "#" +++ ref)
  | local path => Some path
  | other_source => None
  end.

Definition installedPluginsOf (w : world) : outcome (Obj.t (option string)) :=
  obind (readFetchJson (disk (proc w)) (pathJoin (pluginsDir this) "fetch.json"))
    (fun pluginsMetadata =>
       Returned (Underscore.object
         (map (fun entry => (fst entry, versionOfSource (snd entry)))
              pluginsMetadata))).

Definition listInstalledPlugins : M (Obj.t (option string)) :=
  fun w => (installedPluginsOf w, w).

Definition resolveCordovaLocalPluginPath (pluginPath : string) : string :=
  let pluginPath := substr (String.length "file://") pluginPath in
  if isPathRelative pluginPath then
    path_relative (projectRoot this)
                  (path_resolve (projectDir this) pluginPath)
  else pluginPath.

Definition targetForPlugin (name version : string) : outcome string :=
  if negb (truthy version) then Returned name
  else if isUrlWithSha version then convertToGitUrl version
  else if isUrlWithFileScheme version then
    Returned (convertToOSPath (resolveCordovaLocalPluginPath version))
  else Returned (name +++ "@" +++ version).

Definition addPlugin (name version : string) (config : option string)
  : M unit :=
  emit (ConsoleDebug "Adding Cordova plugin" [name]) ;;
  target <- lift (targetForPlugin name version) ;;
  runCommands (o <- defaultOptions ;; raw (plugin_add target o))
              Undefined Undefined.

Definition removePlugins (pluginsToRemove : list string) : M unit :=
  emit (ConsoleDebug "Removing Cordova plugins" pluginsToRemove) ;;
  if Underscore.isEmpty pluginsToRemove then ret tt
  else runCommands (o <- defaultOptions ;; raw (plugin_rm pluginsToRemove o))
                   Undefined Undefined.
End Project.

(** A loop over an array that carries local variables and may throw. *)
Fixpoint ofold {S X} (f : S -> X -> outcome S) (l : list X) (s : S)
  : outcome S :=
  match l with
  | [] => Returned s
  | x :: tl => obind (f s x) (ofold f tl)
  end.

Section Plugins.
Context `{Externals}.
Variable this : CordovaProject.

(** [installedPlugins[name]]: [undefined] when [name] is no property. *)
Definition prop (o : Obj.t (option string)) (name : string) : option string :=
  match Obj.get o name with
  | Some v => v
  | None => None
  end.

(** [value !== version], for a string [version]. *)
Definition strict_neq (value : option string) (version : string) : bool :=
  match value with
  | Some s => negb (String.eqb s version)
  | None => true
  end.

(** The version a plugin that is not from a local path is compared at. *)
Definition normalizedVersion (version : string) : outcome string :=
  if isUrlWithSha version then convertToGitUrl version
  else Returned version.

(** One turn of the first loop, over the desired plugins; the pair holds
    [shouldReinstallAllPlugins] and [pluginsFromLocalPath]. *)
Definition checkDesiredPlugin (installedPlugins : Obj.t (option string))
    (vars : bool * Obj.t string) (entry : string * string)
  : outcome (bool * Obj.t string) :=
  let '(shouldReinstallAllPlugins, pluginsFromLocalPath) := vars in
  let '(name, version) := entry in
  let isPluginFromLocalPath := isUrlWithFileScheme version in
  if isPluginFromLocalPath then
    Returned (shouldReinstallAllPlugins,
              Obj.set pluginsFromLocalPath name version)
  else
    obind (normalizedVersion version)
      (fun version =>
         if negb (Obj.has installedPlugins name)
            || strict_neq (prop installedPlugins name) version
         then Returned (true, pluginsFromLocalPath)
         else Returned (shouldReinstallAllPlugins, pluginsFromLocalPath)).

(** The second loop, over the installed plugins. *)
Definition checkInstalledPlugins (plugins : Obj.t string)
    (installedPlugins : Obj.t (option string))
    (shouldReinstallAllPlugins : bool) : bool :=
  fold_left (fun should entry =>
               if negb (Obj.has plugins (fst entry)) then true else should)
            installedPlugins shouldReinstallAllPlugins.

Definition pluginsToRemove (shouldReinstallAllPlugins : bool)
    (pluginsFromLocalPath : Obj.t string)
    (installedPlugins : Obj.t (option string)) : list string :=
  if shouldReinstallAllPlugins then Obj.keys installedPlugins
  else Underscore.intersection (Obj.keys pluginsFromLocalPath)
                               (Obj.keys installedPlugins).

Definition pluginsToInstall (shouldReinstallAllPlugins : bool)
    (plugins pluginsFromLocalPath : Obj.t string) : Obj.t string :=
  if shouldReinstallAllPlugins then plugins else pluginsFromLocalPath.

(** A loop over the entries of an object that updates a counter. *)
Fixpoint forEachCounting {X} (l : list X) (n : nat) (f : nat -> X -> M nat)
  : M unit :=
  match l with
  | [] => ret tt
  | x :: tl => n' <- f n x ;; forEachCounting tl n' f
  end.

(** The value of the parameter [pluginsConfiguration]: the default [{}]
    stands for [undefined] only, and [null] stays [null], here [None]. *)
Definition configurationGiven (pluginsConfiguration : jsarg (Obj.t string))
  : option (Obj.t string) :=
  match pluginsConfiguration with
  | Given c => Some c
  | Undefined => Some []
  | Null => None
  end.

(** [pluginsConfiguration[name]]: reading a property of [null] throws. *)
Definition configurationOf (pluginsConfiguration : option (Obj.t string))
    (name : string) : outcome (option string) :=
  match pluginsConfiguration with
  | Some c => Returned (Obj.get c name)
  | None => Threw TypeError
  end.

(** The install batch, with its progress reports. *)
Definition installPlugins (pluginsToInstall : Obj.t string)
    (pluginsConfiguration : option (Obj.t string)) : M unit :=
  let pluginsCount := Obj.size pluginsToInstall in
  emit (ReportProgress 0 pluginsCount) ;;
  forEachCounting pluginsToInstall 0 (fun pluginsInstalled entry =>
    let '(name, version) := entry in
    config <- lift (configurationOf pluginsConfiguration name) ;;
    addPlugin this name version config ;;
    let pluginsInstalled := S pluginsInstalled in
    emit (ReportProgress pluginsInstalled pluginsCount) ;;
    ret pluginsInstalled).

(** [buildmessage.enterJob(options, f)] *)
Definition enterJob {A} (title : string) (f : M A) : M A :=
  emit (EnterJob title) ;; f.

(** The caller is inside a [buildmessage] capture and passes an object:
    the two assertions that open the method hold. *)
Definition ensurePluginsAreSynchronized (plugins : Obj.t string)
    (pluginsConfiguration : jsarg (Obj.t string)) : M unit :=
  let pluginsConfiguration := configurationGiven pluginsConfiguration in
  installedPlugins <- listInstalledPlugins this ;;
  vars <- lift (ofold (checkDesiredPlugin installedPlugins) plugins
                      (false, [])) ;;
  let '(shouldReinstallAllPlugins, pluginsFromLocalPath) := vars in
  (if negb (Obj.isEmpty pluginsFromLocalPath) then
     emit (ConsoleDebug
             "Reinstalling Cordova plugins added from the local path" [])
   else ret tt) ;;
  let shouldReinstallAllPlugins :=
    checkInstalledPlugins plugins installedPlugins
                          shouldReinstallAllPlugins in
  if shouldReinstallAllPlugins || negb (Obj.isEmpty pluginsFromLocalPath)
  then
    enterJob "installing Cordova plugins"
      (removePlugins this
         (pluginsToRemove shouldReinstallAllPlugins pluginsFromLocalPath
                          installedPlugins) ;;
       installPlugins
         (pluginsToInstall shouldReinstallAllPlugins plugins
                           pluginsFromLocalPath)
         pluginsConfiguration)
  else ret tt.

(** *** The reconciliation decision

    What the two loops and the branch that follows them decide: whether
    everything is reinstalled, the plugins found to come from a local
    path, what is removed and what is installed.  [perform] is the rest
    of the method, run on that decision. *)
Record decision : Type := Decision {
  reinstallAll : bool;
  fromLocalPath : Obj.t string;
  toRemove : list string;
  toInstall : Obj.t string
}.

Definition reconcile (plugins : Obj.t string)
    (installedPlugins : Obj.t (option string)) : outcome decision :=
  obind (ofold (checkDesiredPlugin installedPlugins) plugins (false, []))
    (fun vars =>
       let '(should, localPlugins) := vars in
       let should := checkInstalledPlugins plugins installedPlugins should in
       Returned
         (if should || negb (Obj.isEmpty localPlugins) then
            Decision should localPlugins
                     (pluginsToRemove should localPlugins installedPlugins)
                     (pluginsToInstall should plugins localPlugins)
          else Decision false [] [] [])).

Definition perform (d : decision) (pluginsConfiguration : jsarg (Obj.t string))
  : M unit :=
  (if negb (Obj.isEmpty (fromLocalPath d)) then
     emit (ConsoleDebug
             "Reinstalling Cordova plugins added from the local path" [])
   else ret tt) ;;
  if reinstallAll d || negb (Obj.isEmpty (fromLocalPath d)) then
    enterJob "installing Cordova plugins"
      (removePlugins this (toRemove d) ;;
       installPlugins (toInstall d)
         (configurationGiven pluginsConfiguration))
  else ret tt.

End Plugins.

(** What a run has asked of the toolchain, which of these calls completed,
    and the progress it reported. *)
Fixpoint calls (l : list event) : list command :=
  match l with
  | [] => []
  | Call c _ :: tl => c :: calls tl
  | _ :: tl => calls tl
  end.

Fixpoint completedCalls (l : list event) : list command :=
  match l with
  | [] => []
  | Call c None :: tl => c :: completedCalls tl
  | _ :: tl => completedCalls tl
  end.

Fixpoint reports (l : list event) : list (nat * nat) :=
  match l with
  | [] => []
  | ReportProgress current end_ :: tl => (current, end_) :: reports tl
  | _ :: tl => reports tl
  end.

(** ** Paths

    [path.resolve] and [path.relative] of Node as they are on a POSIX
    system, for a first path that is absolute: a path is cut into its
    segments, empty segments and [.] are dropped and [..] gives up the
    segment before it. *)
Module Posix.
(** The segments of [l] after those of [stack], which is kept in reverse. *)
Fixpoint normalizeOnto (stack l : list string) : list string :=
  match l with
  | [] => rev stack
  | s :: tl =>
      if String.eqb s "" || String.eqb s "." then normalizeOnto stack tl
      else if String.eqb s ".." then normalizeOnto (List.tl stack) tl
      else normalizeOnto (s :: stack) tl
  end.

Definition segments (p : string) : list string :=
  normalizeOnto [] (split "/" p).

Definition absolute (l : list string) : string :=
  "/" +++ String.concat "/" l.

(** [path.isAbsolute(p)] *)
Definition isAbsolute (p : string) : bool :=
  match p with
  | String c _ => Ascii.eqb c "/"
  | EmptyString => false
  end.

(** [path.resolve(from, to)] *)
Definition resolve (from to : string) : string :=
  if isAbsolute to then absolute (segments to)
  else absolute (segments (from +++ "/" +++ to)).

(** The way from one directory to another: up to the last segment they
    share, then down. *)
Fixpoint relativeSegments (from to : list string) : list string :=
  match from, to with
  | f :: from', t :: to' =>
      if String.eqb f t then relativeSegments from' to'
      else map (fun _ => "..") from ++ to
  | _, _ => map (fun _ => "..") from ++ to
  end.

(** [path.relative(from, to)] *)
Definition relative (from to : string) : string :=
  String.concat "/" (relativeSegments (segments from) (segments to)).
End Posix.

(** ** A test double for the externals

    The helpers of [utils/utils.js] follow the specification's wording; the
    toolchain is a small stand-in that keeps the installed platforms and
    the plugin metadata, and knows the plugins of its [catalogue]. *)
Module Fixture.

(** Modelled from the spec: [utils.isUrlWithFileScheme] is absent from the
    sources; a local-path specifier is `a [file://]-prefixed path'. *)
Definition fileScheme (x : string) : bool :=
  String.prefix "file://" x.

(** Modelled from the spec: [utils.isUrlWithSha] is absent from the
    sources; such a specifier is `a URL carrying a 40-hex-character commit
    SHA', read here as [/^https?:\/\/.*[0-9a-f]{40}/]. *)
Definition urlWithSha (x : string) : bool :=
  re_test (Seq Bol (Seq (Lit "http") (Seq (Opt (Chr "s")) (Seq (Lit "://")
          (Seq (Star Dot) (Rep 40 (Cls isLowerHex))))))) x.

(** Modelled from the spec: [utils.isPathRelative] is absent from the
    sources; a path is relative when it does not start at the root. *)
Definition pathRelative (x : string) : bool :=
  negb (String.prefix "/" x).

(** Modelled from the spec: [AVAILABLE_PLATFORMS] of [cordova/index.js] is
    absent from the sources; the known platforms are `a fixed known
    universe, e.g. "ios", "android", "web"'. *)
Definition availablePlatforms : list string := ["ios"; "android"; "web"].

Record build : Type := Build {
  platformsOnDisk : list string;
  fetchJson : Obj.t source;
  catalogue : Obj.t (string * source)    (* target -> plugin id, source *)
}.

(** The toolchain fails on the platforms and targets of [broken] and on
    the targets it does not know. *)
Definition run (broken : list string) (c : command) (p : process build)
  : option exn * process build :=
  let d := disk p in
  let upd d' := Process (cwd p) (spawnEnv p) d' in
  match c with
  | platform_add platform _ =>
      if Underscore.contains broken platform
      then (Some (CordovaError ("cannot add " +++ platform)), p)
      else (None, upd (Build (platformsOnDisk d ++ [platform]) (fetchJson d)
                             (catalogue d)))
  | platform_rm platform _ =>
      (None, upd (Build (filter (fun x => negb (String.eqb x platform))
                                (platformsOnDisk d))
                        (fetchJson d) (catalogue d)))
  | plugin_add target _ =>
      if Underscore.contains broken target
      then (Some (CordovaError ("cannot add " +++ target)), p)
      else
        match Obj.get (catalogue d) target with
        | Some (id, src) =>
            (None, upd (Build (platformsOnDisk d)
                              (Obj.set (fetchJson d) id src)
                              (catalogue d)))
        | None => (Some (CordovaError ("not found: " +++ target)), p)
        end
  | plugin_rm plugins _ =>
      (None, upd (Build (platformsOnDisk d)
                        (fold_left (@Obj.remove source) plugins (fetchJson d))
                        (catalogue d)))
  end.

Definition externalsFailingOn (broken : list string) : Externals :=
  Build_Externals
    urlWithSha fileScheme pathRelative
    (fun p => p)                                   (* convertToOSPath *)
    (fun a b => a +++ "/" +++ b)                   (* pathJoin *)
    "/usr/local/bin"                               (* getCurrentNodeBinDir *)
    (fun paths => [("PATH", String.concat ":" paths)])
    Posix.relative                                 (* path.relative *)
    Posix.resolve                                  (* path.resolve *)
    availablePlatforms                             (* AVAILABLE_PLATFORMS *)
    (fun d _ => platformsOnDisk d)
    (fun d _ => Returned (fetchJson d))
    (run broken).

#[global] Instance externals : Externals := externalsFailingOn [].

Definition project : CordovaProject := {|
  projectDir := "/home/app";
  cordovaPlatformsInApp := ["ios"; "android"];
  projectRoot := "/home/app/.meteor/local/cordova-build";
  appName := "app";
  pluginsDir := "/home/app/.meteor/local/cordova-build/plugins"
|}.

Definition start (d : build) : world :=
  World (Process "/home/app" [] d) false [].

Definition sha : string := "92fe99b7248075318f6446b288995d4381d24cd2".
End Fixture.

(** * Properties *)

(** ** Strings *)

Fixpoint allChars (p : ascii -> bool) (s : string) : bool :=
  match s with
  | EmptyString => true
  | String c tl => p c && allChars p tl
  end.

Lemma sapp_assoc (a b c : string) : (a +++ b) +++ c = a +++ (b +++ c).
Proof. induction a as [|x a IH]; simpl; [reflexivity | now rewrite IH]. Qed.

Lemma sapp_nil_r (a : string) : a +++ "" = a.
Proof. induction a as [|x a IH]; simpl; [reflexivity | now rewrite IH]. Qed.

Lemma slength_app (a b : string) :
  String.length (a +++ b) = String.length a + String.length b.
Proof. induction a as [|x a IH]; simpl; [reflexivity | now rewrite IH]. Qed.

Lemma substring_all (s : string) : substring 0 (String.length s) s = s.
Proof. induction s as [|x s IH]; simpl; [reflexivity | now rewrite IH]. Qed.

Lemma substring_skip (pre s : string) :
  substring (String.length pre) (String.length s) (pre +++ s) = s.
Proof.
  induction pre as [|x pre IH]; simpl.
  - apply substring_all.
  - exact IH.
Qed.

(** ** The matcher *)

Lemma captured_app pre s r r' g g' :
  captured (MState pre r g) (MState (pre +++ s) r' g') = s.
Proof.
  unfold captured; simpl. rewrite slength_app.
  replace (String.length pre + String.length s - String.length pre)
    with (String.length s) by lia.
  apply substring_skip.
Qed.

Lemma captured_start s r r' g g' :
  captured (MState "" r g) (MState s r' g') = s.
Proof.
  unfold captured; simpl. rewrite Nat.sub_0_r. apply substring_all.
Qed.

Lemma flat_map_map' {A B C} (f : B -> list C) (g : A -> B) (l : list A) :
  flat_map f (map g l) = flat_map (fun x => f (g x)) l.
Proof. induction l as [|x l IH]; simpl; [reflexivity | now rewrite IH]. Qed.

Lemma hd_error_app_some {A} (l l' : list A) (x : A) :
  hd_error l = Some x -> hd_error (l ++ l') = Some x.
Proof. destruct l; simpl; [discriminate | auto]. Qed.

Lemma exec_Lit (l : string) : forall pre tl g,
  exec (Lit l) (MState pre (l +++ tl) g) = [MState (pre +++ l) tl g].
Proof.
  induction l as [|c l IH]; intros pre tl g; simpl.
  - now rewrite sapp_nil_r.
  - unfold eat; simpl. rewrite Ascii.eqb_refl. simpl.
    rewrite IH, app_nil_r, sapp_assoc. reflexivity.
Qed.

Lemma exec_Lit_inv (l : string) : forall pre s g,
  exec (Lit l) (MState pre s g) <> [] -> exists tl, s = l +++ tl.
Proof.
  induction l as [|c l IH]; intros pre s g Hne; simpl in *.
  - now exists s.
  - unfold eat in Hne; simpl in Hne. destruct s as [|a s]; [now elim Hne|].
    destruct (Ascii.eqb_spec c a) as [->|Hca]; [|now elim Hne].
    simpl in Hne. rewrite app_nil_r in Hne.
    destruct (IH _ _ _ Hne) as [tl ->]. now exists tl.
Qed.

Lemma exec_Rep_Cls (p : ascii -> bool) (n : nat) : forall s pre tl g,
  String.length s = n -> allChars p s = true ->
  exec (Rep n (Cls p)) (MState pre (s +++ tl) g) = [MState (pre +++ s) tl g].
Proof.
  simpl. induction n as [|n IH]; intros s pre tl g Hlen Hall.
  - destruct s; [|discriminate]. simpl. now rewrite sapp_nil_r.
  - destruct s as [|c s]; [discriminate|]. simpl in *.
    apply andb_prop in Hall. destruct Hall as [Hc Hall].
    unfold eat; simpl. rewrite Hc. simpl.
    rewrite IH, app_nil_r, sapp_assoc by (auto; lia). reflexivity.
Qed.

(** A lazy [.+?] in front of a continuation [K] that fails inside [s] and
    succeeds at its end stops at the end of [s]. *)
Lemma plusLazy_Dot_stops (K : mstate -> list mstate) (tl : string)
      (g : list string) (res : mstate) :
  forall (s pre : string) (fuel : nat),
    s <> "" ->
    allChars (fun c => negb (isLineTerminator c)) s = true ->
    (forall s1 c s2, s = s1 +++ String c s2 -> s1 <> "" ->
       K (MState (pre +++ s1) (String c s2 +++ tl) g) = []) ->
    hd_error (K (MState (pre +++ s) tl g)) = Some res ->
    String.length s <= fuel ->
    hd_error (flat_map K (plusLazy (exec Dot) fuel (MState pre (s +++ tl) g)))
    = Some res.
Proof.
  induction s as [|c s IH]; intros pre fuel Hne Hall Hfail Hend Hfuel;
    [now elim Hne|].
  destruct fuel as [|fuel]; [simpl in Hfuel; lia|].
  simpl in Hall. apply andb_prop in Hall. destruct Hall as [Hc Hall].
  simpl. unfold eat; simpl. rewrite Hc. simpl. rewrite app_nil_r.
  destruct s as [|c' s].
  - apply hd_error_app_some. exact Hend.
  - rewrite (Hfail (String c "") c' s eq_refl) by discriminate.
    simpl app.
    apply IH; try discriminate; auto.
    + intros s1 c2 s2 Hs Hs1. rewrite sapp_assoc.
      apply Hfail; [simpl; now rewrite Hs | discriminate].
    + now rewrite sapp_assoc.
    + simpl in *. lia.
Qed.

(** A literal pattern is found exactly in the strings that contain it. *)
Lemma searchFrom_Lit_found (l : string) : forall a pre b,
  searchFrom (Lit l) pre (a +++ l +++ b) <> None.
Proof.
  induction a as [|c a IH]; intros pre b.
  - simpl append. destruct (l +++ b) eqn:E; simpl;
      rewrite <- ?E; rewrite exec_Lit; discriminate.
  - simpl. destruct (exec (Lit l) _); [apply IH | discriminate].
Qed.

Lemma searchFrom_Lit_absent (l : string) : forall s pre,
  (forall a b, s <> a +++ l +++ b) -> searchFrom (Lit l) pre s = None.
Proof.
  induction s as [|c s IH]; intros pre Habs.
  - simpl. destruct (exec (Lit l) (MState pre "" [])) eqn:E; [reflexivity|].
    destruct (@exec_Lit_inv l pre "" []) as [tl Htl]; [now rewrite E|].
    elim (Habs "" tl). exact Htl.
  - simpl. destruct (exec (Lit l) (MState pre (String c s) [])) eqn:E.
    + apply IH. intros a b Hs. apply (Habs (String c a) b). simpl. now rewrite Hs.
    + destruct (@exec_Lit_inv l pre (String c s) []) as [tl Htl]; [now rewrite E|].
      elim (Habs "" tl). exact Htl.
Qed.

Lemma re_test_Lit_true (l s : string) :
  (exists a b, s = a +++ l +++ b) -> re_test (Lit l) s = true.
Proof.
  intros (a & b & ->). unfold re_test.
  destruct (searchFrom (Lit l) "" (a +++ l +++ b)) eqn:E; [reflexivity|].
  now elim (@searchFrom_Lit_found l a "" b).
Qed.

Lemma re_test_Lit_false (l s : string) :
  (forall a b, s <> a +++ l +++ b) -> re_test (Lit l) s = false.
Proof.
  intros Habs. unfold re_test. now rewrite searchFrom_Lit_absent.
Qed.

Lemma allChars_app (p : ascii -> bool) (a b : string) :
  allChars p (a +++ b) = allChars p a && allChars p b.
Proof.
  induction a as [|c a IH]; simpl; [reflexivity|].
  now rewrite IH, andb_assoc.
Qed.

Lemma allChars_impl (p q : ascii -> bool) (s : string) :
  (forall c, p c = true -> q c = true) ->
  allChars p s = true -> allChars q s = true.
Proof.
  intros Hpq. induction s as [|c s IH]; simpl; [reflexivity|].
  intros Hs. apply andb_prop in Hs. destruct Hs as [Hc Hs].
  now rewrite (Hpq _ Hc), IH.
Qed.

Lemma exec_Seq r1 r2 st :
  exec (Seq r1 r2) st = flat_map (exec r2) (exec r1 st).
Proof. reflexivity. Qed.

Lemma exec_Grp r st :
  exec (Grp r) st =
  map (fun st' => MState (seen st') (rest st') (groups st' ++ [captured st st']))
      (exec r st).
Proof. reflexivity. Qed.

Lemma exec_PlusLazy r st :
  exec (PlusLazy r) st = plusLazy (exec r) (S (String.length (rest st))) st.
Proof. reflexivity. Qed.

Lemma exec_Chr_cons a c pre tl g :
  exec (Chr a) (MState pre (String c tl) g) =
  if Ascii.eqb a c then [MState (pre +++ String c "") tl g] else [].
Proof. reflexivity. Qed.

Lemma exec_Seq_nil r1 r2 st : exec r1 st = [] -> exec (Seq r1 r2) st = [].
Proof. intros E. now rewrite exec_Seq, E. Qed.

Lemma flat_map_one {A B} (f : A -> list B) (x : A) : flat_map f [x] = f x.
Proof. simpl. apply app_nil_r. Qed.

Lemma searchFrom_hd r pre s st :
  hd_error (exec r (MState pre s [])) = Some st ->
  searchFrom r pre s = Some (MState pre s [], st).
Proof.
  intros Hhd.
  destruct s; simpl; destruct (exec r _) as [|x l]; simpl in Hhd;
    try discriminate; now inversion Hhd.
Qed.

(** Characters allowed in the name of an organization or a repository for
    the rewrite to split the URL where the names end. *)
Definition nameChar (c : ascii) : bool :=
  negb (isLineTerminator c) && negb (Ascii.eqb c "/").

Lemma nameChar_inside (s s1 s2 : string) (c : ascii) :
  allChars nameChar s = true -> s = s1 +++ String c s2 ->
  Ascii.eqb "/" c = false.
Proof.
  intros Hs ->. rewrite allChars_app in Hs. simpl in Hs.
  apply andb_prop in Hs. destruct Hs as [_ Hs].
  apply andb_prop in Hs. destruct Hs as [Hc _].
  unfold nameChar in Hc. apply andb_prop in Hc. destruct Hc as [_ Hc].
  rewrite Ascii.eqb_sym. now destruct (Ascii.eqb c "/").
Qed.

Lemma nameChar_noLineBreak (s : string) :
  allChars nameChar s = true ->
  allChars (fun c => negb (isLineTerminator c)) s = true.
Proof.
  apply allChars_impl. intros c Hc. unfold nameChar in Hc.
  now apply andb_prop in Hc.
Qed.

Section TarballPattern.
Variables (org repo sha : string).
Hypothesis org_ne : org <> "".
Hypothesis repo_ne : repo <> "".
Hypothesis org_ok : allChars nameChar org = true.
Hypothesis repo_ok : allChars nameChar repo = true.
Hypothesis sha_len : String.length sha = 40.
Hypothesis sha_hex : allChars isLowerHex sha = true.

Lemma exec_sha pre g :
  exec (Seq (Lit "/tarball/") (Grp (Rep 40 (Cls isLowerHex))))
       (MState pre ("/tarball/" +++ sha) g)
  = [MState (pre +++ "/tarball/" +++ sha) "" (g ++ [sha])].
Proof.
  rewrite exec_Seq, exec_Lit, flat_map_one, exec_Grp.
  rewrite <- (sapp_nil_r sha) at 1.
  rewrite exec_Rep_Cls by assumption. simpl map.
  rewrite captured_app, sapp_assoc. reflexivity.
Qed.

Lemma exec_repo pre g :
  hd_error
    (exec (Seq (Grp (PlusLazy Dot))
               (Seq (Lit "/tarball/") (Grp (Rep 40 (Cls isLowerHex)))))
          (MState pre (repo +++ "/tarball/" +++ sha) g))
  = Some (MState (pre +++ repo +++ "/tarball/" +++ sha) ""
                 (g ++ [repo; sha])).
Proof.
  rewrite exec_Seq, exec_Grp, flat_map_map', exec_PlusLazy.
  apply plusLazy_Dot_stops with (K := fun x =>
    exec (Seq (Lit "/tarball/") (Grp (Rep 40 (Cls isLowerHex))))
         (MState (seen x) (rest x)
                 (groups x ++
                  [captured (MState pre (repo +++ "/tarball/" +++ sha) g) x]))).
  - exact repo_ne.
  - now apply nameChar_noLineBreak.
  - intros s1 c s2 Hs _. cbv beta. simpl seen; simpl rest.
    change (Lit "/tarball/") with (Seq (Chr "/") (Lit "tarball/")).
    apply exec_Seq_nil, exec_Seq_nil. simpl append.
    now rewrite exec_Chr_cons, (@nameChar_inside _ _ _ _ repo_ok Hs).
  - cbv beta. simpl seen; simpl rest; simpl groups.
    rewrite captured_app, exec_sha, sapp_assoc, <- app_assoc. reflexivity.
  - simpl rest. rewrite slength_app. lia.
Qed.

Lemma exec_org pre g :
  hd_error
    (exec (Seq (Grp (PlusLazy Dot)) (Seq (Chr "/")
            (Seq (Grp (PlusLazy Dot))
                 (Seq (Lit "/tarball/") (Grp (Rep 40 (Cls isLowerHex)))))))
          (MState pre (org +++ "/" +++ repo +++ "/tarball/" +++ sha) g))
  = Some (MState (pre +++ org +++ "/" +++ repo +++ "/tarball/" +++ sha) ""
                 (g ++ [org; repo; sha])).
Proof.
  rewrite exec_Seq, exec_Grp, flat_map_map', exec_PlusLazy.
  apply plusLazy_Dot_stops with (K := fun x =>
    exec (Seq (Chr "/") (Seq (Grp (PlusLazy Dot))
            (Seq (Lit "/tarball/") (Grp (Rep 40 (Cls isLowerHex))))))
         (MState (seen x) (rest x)
                 (groups x ++
                  [captured (MState pre
                     (org +++ "/" +++ repo +++ "/tarball/" +++ sha) g) x]))).
  - exact org_ne.
  - now apply nameChar_noLineBreak.
  - intros s1 c s2 Hs _. cbv beta. simpl seen; simpl rest.
    apply exec_Seq_nil. simpl append.
    now rewrite exec_Chr_cons, (@nameChar_inside _ _ _ _ org_ok Hs).
  - cbv beta. simpl seen; simpl rest; simpl groups.
    rewrite captured_app, exec_Seq.
    simpl append. rewrite exec_Chr_cons, Ascii.eqb_refl, flat_map_one.
    etransitivity;
      [apply (exec_repo ((pre +++ org) +++ "/") (g ++ [org]))|].
    rewrite !sapp_assoc, <- app_assoc. reflexivity.
  - simpl rest. rewrite slength_app. lia.
Qed.

Lemma tarball_match :
  re_match tarballUrlPattern
    ("https://github.com/" +++ org +++ "/" +++ repo +++ "/tarball/" +++ sha)
  = Some ["https://github.com/" +++ org +++ "/" +++ repo +++ "/tarball/"
            +++ sha; org; repo; sha].
Proof.
  assert (Hhd :
    hd_error (exec tarballUrlPattern
      (MState "" ("https://github.com/" +++ org +++ "/" +++ repo
                    +++ "/tarball/" +++ sha) []))
    = Some (MState ("https://github.com/" +++ org +++ "/" +++ repo
                     +++ "/tarball/" +++ sha) "" [org; repo; sha])).
  { unfold tarballUrlPattern.
    remember (Seq (Grp (PlusLazy Dot)) (Seq (Chr "/")
               (Seq (Grp (PlusLazy Dot))
                 (Seq (Lit "/tarball/") (Grp (Rep 40 (Cls isLowerHex)))))))
      as T eqn:ET.
    cbn. rewrite !app_nil_r. subst T.
    apply (exec_org "https://github.com/" []). }
  unfold re_match. rewrite (searchFrom_hd _ _ _ Hhd).
  rewrite captured_start. reflexivity.
Qed.
End TarballPattern.

Lemma dotGit_absent (s : string) :
  re_test dotGitPattern s = false -> forall a b, s <> a +++ ".git" +++ b.
Proof.
  intros Hno a b Hs.
  assert (Hyes : re_test dotGitPattern s = true)
    by (apply re_test_Lit_true; eauto).
  congruence.
Qed.

(** ** The version specifier resolver *)

(** C5, amended.  For a non-empty organization and repository name without
    [/] and line breaks and a SHA of 40 lower-case hexadecimal digits, a
    specifier [https://github.com/<org>/<repo>/tarball/<sha>] that the
    helper [isUrlWithSha] recognises resolves to the installation target
    [https://github.com/<org>/<repo>.git#<sha>]. *)
Theorem targetForPlugin_tarball_rewrite `{Externals} (this : CordovaProject)
    (name org repo sha : string) :
  truthy org = true -> truthy repo = true ->
  allChars nameChar org = true -> allChars nameChar repo = true ->
  String.length sha = 40 -> allChars isLowerHex sha = true ->
  isUrlWithSha ("https://github.com/" +++ org +++ "/" +++ repo
                  +++ "/tarball/" +++ sha) = true ->
  targetForPlugin this name
    ("https://github.com/" +++ org +++ "/" +++ repo +++ "/tarball/" +++ sha)
  = Returned ("https://github.com/" +++ org +++ "/" +++ repo
                +++ ".git#" +++ sha).
Proof.
  intros Horg Hrepo Horg' Hrepo' Hlen Hhex Hsha.
  unfold targetForPlugin. rewrite Hsha.
  change (truthy ("https://github.com/" +++ org +++ "/" +++ repo
                    +++ "/tarball/" +++ sha)) with true.
  cbv iota. simpl negb. cbv iota.
  unfold convertToGitUrl. rewrite tarball_match; auto.
  - intros ->. discriminate.
  - intros ->. discriminate.
Qed.

Lemma targetForPlugin_tarball_rewrite_witness :
  targetForPlugin Fixture.project "com.meteor.cordova-update"
    ("https://github.com/" +++ "meteor" +++ "/" +++ "com.meteor.cordova-update"
       +++ "/tarball/" +++ Fixture.sha)
  = Returned ("https://github.com/" +++ "meteor" +++ "/"
                +++ "com.meteor.cordova-update" +++ ".git#" +++ Fixture.sha).
Proof.
  apply (@targetForPlugin_tarball_rewrite Fixture.externals Fixture.project
           "com.meteor.cordova-update" "meteor" "com.meteor.cordova-update"
           Fixture.sha); vm_compute; reflexivity.
Defined.

(** C5 as stated fails: with an empty organization the pattern does not
    match, the URL holds no [.git], and the resolution throws. *)
Lemma targetForPlugin_empty_organization :
  targetForPlugin Fixture.project "plugin"
    ("https://github.com/" +++ "" +++ "/" +++ "repo" +++ "/tarball/"
       +++ Fixture.sha)
  = Threw (Error tarballUrlMessage)
  /\ targetForPlugin Fixture.project "plugin"
       ("https://github.com/" +++ "" +++ "/" +++ "repo" +++ "/tarball/"
          +++ Fixture.sha)
     <> Returned ("https://github.com/" +++ "" +++ "/" +++ "repo" +++ ".git#"
                    +++ Fixture.sha).
Proof. split; vm_compute; [reflexivity | discriminate]. Qed.

(** The rejection is that of [convertToGitUrl] itself, whatever the helpers
    are. *)
Example convertToGitUrl_empty_organization :
  convertToGitUrl ("https://github.com//repo/tarball/" +++ Fixture.sha)
  = Threw (Error tarballUrlMessage).
Proof. vm_compute. reflexivity. Qed.

(** The other conditions of the amended statement are needed as well: an
    upper-case SHA is not matched, and a name that itself holds a tarball
    path ends the match early. *)
Example convertToGitUrl_uppercase_sha :
  convertToGitUrl
    "https://github.com/org/repo/tarball/92FE99B7248075318F6446B288995D4381D24CD2"
  = Threw (Error tarballUrlMessage).
Proof. vm_compute. reflexivity. Qed.

Example convertToGitUrl_nested_tarball :
  convertToGitUrl
    ("https://github.com/" +++ "org" +++ "/"
       +++ ("x/tarball/" +++ Fixture.sha +++ "/y")
       +++ "/tarball/" +++ "0000000000000000000000000000000000000000")
  = Returned ("https://github.com/org/x.git#" +++ Fixture.sha).
Proof. vm_compute. reflexivity. Qed.

(** C10.  A string the tarball pattern does not match and that holds
    [.git] anywhere is returned unchanged by [convertToGitUrl]. *)
Theorem convertToGitUrl_dotgit_passthrough (url : string) :
  re_match tarballUrlPattern url = None ->
  (exists a b, url = a +++ ".git" +++ b) ->
  convertToGitUrl url = Returned url.
Proof.
  intros Hno Hgit. unfold convertToGitUrl. rewrite Hno.
  unfold dotGitPattern. now rewrite re_test_Lit_true.
Qed.

Lemma convertToGitUrl_dotgit_passthrough_witness :
  convertToGitUrl ("https://gist" +++ ".git" +++ "hub.com/meteor/"
                     +++ Fixture.sha)
  = Returned ("https://gist" +++ ".git" +++ "hub.com/meteor/" +++ Fixture.sha).
Proof.
  apply convertToGitUrl_dotgit_passthrough.
  - vm_compute. reflexivity.
  - exists "https://gist", ("hub.com/meteor/" +++ Fixture.sha). reflexivity.
Defined.

(** ** The command execution context *)

Section CommandContext.
Context `{Externals}.
Variable this : CordovaProject.

(** The world in which the wrapped action starts: the working directory
    and the environment are those asked for. *)
Definition entered (env : jsarg environ) (dir : jsarg string) (w : world)
  : world :=
  let env := match env with
             | Given e => e
             | Null => []
             | Undefined => defaultEnvWithPathsAdded []
             end in
  let dir := match dir with
             | Given d => d
             | Null => ""
             | Undefined => projectRoot this
             end in
  World (Process (if truthy dir then convertToOSPath dir else cwd (proc w))
                 env (disk (proc w)))
        (consoleVerbose w) (out w).

(** The error [runCommands] ends with when its action ends with [e]. *)
Definition escalated (e : exn) : exn :=
  match e with
  | CordovaError _ => ExitWithCode 1
  | _ => e
  end.

(** What the handler prints. *)
Definition complaint (e : exn) : list event :=
  match e with
  | CordovaError m =>
      [ConsoleError ("cordova: " +++ m);
       ConsoleError
         "Try running again with the --verbose option to help diagnose the issue."]
  | _ => []
  end.

(** The world after the [finally] block. *)
Definition restored (oldCwd : string) (w : world) : world :=
  if truthy oldCwd then
    World (Process oldCwd (spawnEnv (proc w)) (disk (proc w)))
          (consoleVerbose w) (out w)
  else w.

Lemma runCommands_spec {A} (asyncFunc : M A) env dir (w : world) :
  runCommands this asyncFunc env dir w =
  match asyncFunc (entered env dir w) with
  | (Returned a, w') => (Returned a, restored (cwd (proc w)) w')
  | (Threw e, w') =>
      (Threw (escalated e),
       restored (cwd (proc w))
         (World (proc w') (consoleVerbose w') (out w' ++ complaint e)))
  end.
Proof.
  unfold runCommands, entered, restored, bind, process_cwd, try_catch_finally.
  generalize (match env with
              | Given e => e
              | Null => []
              | Undefined => defaultEnvWithPathsAdded []
              end).
  generalize (match dir with
              | Given d => d
              | Null => ""
              | Undefined => projectRoot this
              end).
  intros d e.
  destruct (truthy d); simpl;
    (destruct (asyncFunc _) as [[a|err] w']; simpl;
     [ destruct (truthy (cwd (proc w))); reflexivity
     | destruct err; simpl; unfold bind, emit, throw; simpl;
       destruct (truthy (cwd (proc w))); simpl;
       rewrite <- ?app_assoc; try reflexivity;
       destruct w'; simpl; rewrite ?app_nil_r; reflexivity ]).
Qed.

(** C4.  When [runCommands] returns or throws, the working directory of
    the process is the one it had at the call, whatever the action did and
    however it ended. *)
Theorem runCommands_restores_cwd {A} (asyncFunc : M A) env dir (w : world) :
  truthy (cwd (proc w)) = true ->
  cwd (proc (snd (runCommands this asyncFunc env dir w))) = cwd (proc w).
Proof.
  intros Hcwd. rewrite runCommands_spec.
  destruct (asyncFunc _) as [[a|e] w']; unfold restored; rewrite Hcwd;
    reflexivity.
Qed.

(** C7.  [runCommands] returns what its action returns; an action that
    fails with a [CordovaError] makes it throw [ExitWithCode(1)], and any
    other error of the action is thrown unchanged. *)
Theorem runCommands_escalates {A} (asyncFunc : M A) env dir (w : world) :
  fst (runCommands this asyncFunc env dir w) =
  match fst (asyncFunc (entered env dir w)) with
  | Returned a => Returned a
  | Threw (CordovaError _) => Threw (ExitWithCode 1)
  | Threw e => Threw e
  end.
Proof.
  rewrite runCommands_spec.
  destruct (asyncFunc _) as [[a|e] w']; [reflexivity|].
  destruct e; reflexivity.
Qed.

(** A call of the toolchain wrapped in [runCommands], as every method
    that talks to Cordova makes it. *)
Lemma runCommands_raw (mk : options -> command) (w : world) :
  let o := Options (negb (consoleVerbose w)) (consoleVerbose w) in
  let r := cordova_raw (mk o) (proc (entered Undefined Undefined w)) in
  runCommands this (o <- defaultOptions ;; raw (mk o)) Undefined Undefined w
  = (match fst r with None => Returned tt | Some e => Threw (escalated e) end,
     restored (cwd (proc w))
       (World (snd r) (consoleVerbose w)
              (out w ++ Call (mk o) (fst r)
                     :: match fst r with None => [] | Some e => complaint e end))).
Proof.
  intros o r. rewrite runCommands_spec.
  unfold bind, defaultOptions, raw. subst r o. unfold entered. simpl.
  match goal with
  | |- context [cordova_raw ?c ?p] =>
      destruct (cordova_raw c p) as [[e|] p']
  end; simpl.
  - rewrite <- app_assoc. reflexivity.
  - reflexivity.
Qed.

(** C6.  A specifier that the helper takes for a URL with a SHA, that the
    tarball pattern does not match and that holds no [.git] makes the
    resolution throw the error on tarball URLs, and [addPlugin] throws it
    before any call of the toolchain. *)
Theorem addPlugin_rejects_tarball_url (name version : string)
    (config : option string) (w : world) :
  isUrlWithSha version = true ->
  truthy version = true ->
  re_match tarballUrlPattern version = None ->
  (forall a b, version <> a +++ ".git" +++ b) ->
  targetForPlugin this name version = Threw (Error tarballUrlMessage)
  /\ fst (addPlugin this name version config w)
     = Threw (Error tarballUrlMessage)
  /\ calls (out (snd (addPlugin this name version config w)))
     = calls (out w)
  /\ proc (snd (addPlugin this name version config w)) = proc w.
Proof.
  intros Hsha Htruthy Hno Hgit.
  assert (Htarget :
    targetForPlugin this name version = Threw (Error tarballUrlMessage)).
  { unfold targetForPlugin. rewrite Htruthy, Hsha. simpl.
    unfold convertToGitUrl. rewrite Hno.
    unfold dotGitPattern. now rewrite re_test_Lit_false. }
  split; [exact Htarget|].
  unfold addPlugin, bind, emit, lift. rewrite Htarget. simpl.
  repeat split.
  induction (out w) as [|ev l IH]; simpl; [reflexivity|].
  destruct ev; simpl; now rewrite ?IH.
Qed.
End CommandContext.

Lemma runCommands_restores_cwd_witness :
  truthy "/home/app" = true /\
  cwd (proc (snd (runCommands Fixture.project
                    (process_chdir "/tmp" ;; @throw _ unit (Error "boom"))
                    Undefined Undefined
                    (Fixture.start (Fixture.Build [] [] [])))))
  = "/home/app".
Proof.
  split; [reflexivity|].
  apply (@runCommands_restores_cwd Fixture.externals Fixture.project unit
           (process_chdir "/tmp" ;; @throw _ unit (Error "boom"))
           Undefined Undefined (Fixture.start (Fixture.Build [] [] []))).
  reflexivity.
Defined.

Lemma addPlugin_rejects_tarball_url_witness :
  fst (addPlugin Fixture.project "plugin"
         ("https://example.com/downloads/" +++ Fixture.sha) None
         (Fixture.start (Fixture.Build [] [] [])))
  = Threw (Error tarballUrlMessage).
Proof.
  apply (@addPlugin_rejects_tarball_url Fixture.externals Fixture.project
           "plugin" ("https://example.com/downloads/" +++ Fixture.sha) None
           (Fixture.start (Fixture.Build [] [] []))).
  - vm_compute. reflexivity.
  - vm_compute. reflexivity.
  - vm_compute. reflexivity.
  - apply dotGit_absent. vm_compute. reflexivity.
Defined.

(** ** Traces *)

Lemma calls_app (l l' : list event) : calls (l ++ l') = calls l ++ calls l'.
Proof.
  induction l as [|ev l IH]; simpl; [reflexivity|].
  destruct ev; simpl; now rewrite ?IH.
Qed.

Lemma completedCalls_app (l l' : list event) :
  completedCalls (l ++ l') = completedCalls l ++ completedCalls l'.
Proof.
  induction l as [|ev l IH]; simpl; [reflexivity|].
  destruct ev as [| |c [e|]| |]; simpl; now rewrite ?IH.
Qed.

Lemma reports_app (l l' : list event) :
  reports (l ++ l') = reports l ++ reports l'.
Proof.
  induction l as [|ev l IH]; simpl; [reflexivity|].
  destruct ev; simpl; now rewrite ?IH.
Qed.

Lemma contains_In (l : list string) (x : string) :
  Underscore.contains l x = true <-> In x l.
Proof.
  unfold Underscore.contains. rewrite existsb_exists. split.
  - intros (y & Hy & Hxy). apply String.eqb_eq in Hxy. now subst.
  - intros Hx. exists x. split; [assumption | apply String.eqb_refl].
Qed.

Lemma contains_not_In (l : list string) (x : string) :
  Underscore.contains l x = false <-> ~ In x l.
Proof.
  rewrite <- contains_In. destruct (Underscore.contains l x); split;
    congruence.
Qed.

(** ** The platform reconciler *)

Section Platforms.
Context `{Externals}.
Variable this : CordovaProject.

Lemma restored_shape {A} (r : outcome A) (old : string)
      (p : process Disk) (v : bool) (o : list event) :
  exists p', (r, restored old (World p v o)) = (r, World p' v o).
Proof. unfold restored. destruct (truthy old); simpl; eauto. Qed.

(** A loop whose turns all return, each leaving its own events. *)
Lemma forEach_trace {X} (f : X -> M unit) (ev : X -> list event) (v : bool) :
  forall (l : list X),
    (forall x w, In x l -> consoleVerbose w = v ->
       exists p', f x w = (Returned tt, World p' v (out w ++ ev x))) ->
    forall w, consoleVerbose w = v ->
      exists p', forEach l f w
                 = (Returned tt, World p' v (out w ++ flat_map ev l)).
Proof.
  induction l as [|x l IH]; intros Hf w Hv.
  - exists (proc w). simpl. unfold ret. rewrite app_nil_r. subst v.
    now destruct w.
  - simpl. unfold bind.
    destruct (Hf x w (or_introl eq_refl) Hv) as [p1 ->].
    destruct (IH (fun y w' Hy => Hf y w' (or_intror Hy))
                 (World p1 v (out w ++ ev x)) eq_refl) as [p2 ->].
    exists p2. simpl. now rewrite app_assoc.
Qed.

(** The platforms the first loop adds and the second loop removes. *)
Definition missingPlatforms (platforms installed : list string)
  : list string :=
  filter (fun p => negb (Underscore.contains installed p)) platforms.

Definition stalePlatforms (platforms installed : list string)
  : list string :=
  filter (fun p => negb (Underscore.contains platforms p)
                   && Underscore.contains AVAILABLE_PLATFORMS p) installed.

Lemma calls_conditional (mk : string -> command) (c : string -> bool)
      (l : list string) :
  calls (flat_map (fun x => if c x then [Call (mk x) None] else []) l)
  = map mk (filter c l).
Proof.
  induction l as [|x l IH]; simpl; [reflexivity|].
  rewrite calls_app, IH. now destruct (c x).
Qed.

(** C8.  With the toolchain carrying out the commands it is given,
    platform reconciliation returns after one add for each desired
    platform that is not installed, followed by one remove for each
    installed platform that is neither desired nor outside
    [AVAILABLE_PLATFORMS]; nothing else is asked of the toolchain. *)
Theorem ensurePlatformsAreSynchronized_diff (platforms : list string)
    (w : world) :
  let installed :=
    cordova_util_listPlatforms (disk (proc w))
                               (convertToOSPath (projectRoot this)) in
  let o := Options (negb (consoleVerbose w)) (consoleVerbose w) in
  let adds := missingPlatforms platforms installed in
  let removes := stalePlatforms platforms installed in
  NoDup platforms -> NoDup installed ->
  (forall c p,
      In c (map (fun x => platform_add x o) adds
            ++ map (fun x => platform_rm x o) removes) ->
      fst (cordova_raw c p) = None) ->
  (exists w',
      ensurePlatformsAreSynchronized this (Given platforms) w
      = (Returned tt, w')
      /\ calls (out w')
         = calls (out w) ++ map (fun x => platform_add x o) adds
                         ++ map (fun x => platform_rm x o) removes)
  /\ NoDup adds /\ NoDup removes
  /\ (forall x, In x adds <-> In x platforms /\ ~ In x installed)
  /\ (forall x, In x removes <->
                In x installed /\ ~ In x platforms
                /\ In x AVAILABLE_PLATFORMS).
Proof.
  intros installed o adds removes Hnd Hni Hok.
  split; [|split; [|split; [|split]]].
  - unfold ensurePlatformsAreSynchronized, bind, listInstalledPlatforms.
    fold installed.
    destruct (@forEach_trace string
      (fun platform =>
         if Underscore.contains installed platform then ret tt
         else addPlatform this platform)
      (fun x => if negb (Underscore.contains installed x)
                then [Call (platform_add x o) None] else [])
      (consoleVerbose w) platforms) with (w := w) as [p1 Hloop1];
      [|reflexivity|].
    { intros x w' Hx Hv. destruct (Underscore.contains installed x) eqn:Hc.
      - exists (proc w'). unfold ret. simpl. rewrite app_nil_r, <- Hv.
        now destruct w'.
      - unfold addPlatform.
        rewrite (runCommands_raw this (platform_add x)). rewrite Hv.
        fold o. rewrite Hok.
        + simpl. apply restored_shape.
        + apply in_or_app. left.
          apply (in_map (fun y => platform_add y o) adds x).
          unfold adds, missingPlatforms.
          apply filter_In. now rewrite Hc. }
    rewrite Hloop1.
    destruct (@forEach_trace string
      (fun platform =>
         if negb (Underscore.contains platforms platform)
            && Underscore.contains AVAILABLE_PLATFORMS platform
         then removePlatform this platform else ret tt)
      (fun x => if negb (Underscore.contains platforms x)
                   && Underscore.contains AVAILABLE_PLATFORMS x
                then [Call (platform_rm x o) None] else [])
      (consoleVerbose w) installed)
      with (w := World p1 (consoleVerbose w)
                   (out w ++ flat_map
                      (fun x => if negb (Underscore.contains installed x)
                                then [Call (platform_add x o) None] else [])
                      platforms))
      as [p2 Hloop2]; [|reflexivity|].
    { intros x w' Hx Hv.
      destruct (negb (Underscore.contains platforms x)
                && Underscore.contains AVAILABLE_PLATFORMS x) eqn:Hc.
      - unfold removePlatform.
        rewrite (runCommands_raw this (platform_rm x)). rewrite Hv.
        fold o. rewrite Hok.
        + simpl. apply restored_shape.
        + apply in_or_app. right.
          apply (in_map (fun y => platform_rm y o) removes x).
          unfold removes, stalePlatforms.
          apply filter_In. now rewrite Hc.
      - exists (proc w'). unfold ret. simpl. rewrite app_nil_r, <- Hv.
        now destruct w'. }
    eexists. split; [exact Hloop2|].
    simpl. rewrite !calls_app.
    rewrite (calls_conditional (fun x => platform_add x o)).
    rewrite (calls_conditional (fun x => platform_rm x o)).
    now rewrite <- app_assoc.
  - now apply NoDup_filter.
  - now apply NoDup_filter.
  - intros x. unfold adds, missingPlatforms.
    rewrite filter_In, negb_true_iff, contains_not_In. tauto.
  - intros x. unfold removes, stalePlatforms.
    rewrite filter_In, andb_true_iff, negb_true_iff, contains_not_In,
      contains_In. tauto.
Qed.
End Platforms.

Lemma ensurePlatformsAreSynchronized_diff_witness :
  exists w',
    ensurePlatformsAreSynchronized Fixture.project (Given ["ios"; "android"])
      (Fixture.start (Fixture.Build ["android"; "web"] [] []))
    = (Returned tt, w')
    /\ calls (out w') = [platform_add "ios" (Options true false);
                         platform_rm "web" (Options true false)].
Proof.
  destruct (@ensurePlatformsAreSynchronized_diff Fixture.externals
              Fixture.project ["ios"; "android"]
              (Fixture.start (Fixture.Build ["android"; "web"] [] [])))
    as [(w' & Hrun & Hcalls) _].
  - repeat constructor; simpl; intuition discriminate.
  - repeat constructor; simpl; intuition discriminate.
  - intros c p Hin. simpl in Hin.
    destruct Hin as [<-|[<-|[]]]; reflexivity.
  - exists w'. split; [exact Hrun | exact Hcalls].
Defined.

(** ** The install batch *)

Section Batch.
Context `{Externals}.
Variable this : CordovaProject.


Lemma addPlugin_unfold (name version : string) (config : option string)
      (w : world) :
  addPlugin this name version config w =
  let w1 := World (proc w) (consoleVerbose w)
                  (out w ++ [ConsoleDebug "Adding Cordova plugin" [name]]) in
  match targetForPlugin this name version with
  | Returned target =>
      runCommands this (o <- defaultOptions ;; raw (plugin_add target o))
                  Undefined Undefined w1
  | Threw e => (Threw e, w1)
  end.
Proof.
  unfold addPlugin. unfold bind at 1. unfold emit. unfold bind at 1.
  unfold lift. now destruct (targetForPlugin this name version).
Qed.


(** One turn of the loop of [installPlugins]. *)
Lemma counting_turn {A} (a : M unit) (e : event) (m : nat)
      (k : nat -> M A) (w : world) :
  (n' <- (a ;; emit e ;; ret m) ;; k n') w =
  match a w with
  | (Returned _, w1) =>
      k m (World (proc w1) (consoleVerbose w1) (out w1 ++ [e]))
  | (Threw x, w1) => (Threw x, w1)
  end.
Proof.
  unfold bind, emit, ret. now destruct (a w) as [[u|x] w1].
Qed.


End Batch.

(** A batch that completes, and one that stops at its second plugin. *)
Example installPlugins_two :
  let w := Fixture.start
             (Fixture.Build [] []
                [("camera@1.0.0", ("camera", registry "camera@1.0.0"));
                 ("device@2.0.0", ("device", registry "device@2.0.0"))]) in
  let run := installPlugins Fixture.project
               [("camera", "1.0.0"); ("device", "2.0.0")] (Some []) w in
  fst run = Returned tt /\ reports (out (snd run)) = [(0, 2); (1, 2); (2, 2)].
Proof. vm_compute. split; reflexivity. Qed.

Example installPlugins_stops :
  let w := Fixture.start
             (Fixture.Build [] []
                [("camera@1.0.0", ("camera", registry "camera@1.0.0"))]) in
  let run := installPlugins Fixture.project
               [("camera", "1.0.0"); ("device", "2.0.0")] (Some []) w in
  fst run = Threw (ExitWithCode 1) /\ reports (out (snd run)) = [(0, 2); (1, 2)].
Proof. vm_compute. split; reflexivity. Qed.

(** A batch given a [null] configuration stops before its first add. *)
Example installPlugins_null_configuration :
  let w := Fixture.start
             (Fixture.Build [] []
                [("camera@1.0.0", ("camera", registry "camera@1.0.0"))]) in
  let run := installPlugins Fixture.project [("camera", "1.0.0")] None w in
  fst run = Threw TypeError
  /\ reports (out (snd run)) = [(0, 1)] /\ calls (out (snd run)) = [].
Proof. vm_compute. repeat split; reflexivity. Qed.

(** ** Objects *)

Lemma get_In {V} (o : Obj.t V) (k : string) (v : V) :
  Obj.get o k = Some v -> In (k, v) o.
Proof.
  induction o as [|[k' v'] o IH]; simpl; [discriminate|].
  destruct (String.eqb_spec k' k) as [->|Hk].
  - intros [= ->]. now left.
  - intros Hg. right. auto.
Qed.

Lemma get_None {V} (o : Obj.t V) (k : string) :
  Obj.get o k = None <-> ~ In k (Obj.keys o).
Proof.
  induction o as [|[k' v'] o IH]; simpl; [tauto|].
  destruct (String.eqb_spec k' k) as [->|Hk].
  - split; [discriminate | intros Hn; elim Hn; now left].
  - rewrite IH. tauto.
Qed.

Lemma has_In {V} (o : Obj.t V) (k : string) :
  Obj.has o k = true <-> In k (Obj.keys o).
Proof.
  unfold Obj.has. destruct (Obj.get o k) eqn:E.
  - split; [intros _ | reflexivity].
    apply get_In in E. now apply (in_map fst) in E.
  - apply get_None in E. split; [discriminate | contradiction].
Qed.

Lemma get_wf {V} (o : Obj.t V) (k : string) (v : V) :
  Obj.wf o -> In (k, v) o -> Obj.get o k = Some v.
Proof.
  unfold Obj.wf. induction o as [|[k' v'] o IH]; simpl; [contradiction|].
  intros Hnd Hin. inversion Hnd as [|? ? Hk' Hnd']; subst.
  destruct Hin as [[= -> ->]|Hin].
  - now rewrite String.eqb_refl.
  - destruct (String.eqb_spec k' k) as [->|Hk]; [|auto].
    elim Hk'. now apply (in_map fst) in Hin.
Qed.

Lemma get_set_same {V} (o : Obj.t V) (k : string) (v : V) :
  Obj.get (Obj.set o k v) k = Some v.
Proof.
  induction o as [|[k' v'] o IH]; simpl.
  - now rewrite String.eqb_refl.
  - destruct (String.eqb_spec k' k) as [->|Hk]; simpl.
    + now rewrite String.eqb_refl.
    + destruct (String.eqb_spec k' k); [contradiction | exact IH].
Qed.

Lemma get_set_other {V} (o : Obj.t V) (k k' : string) (v : V) :
  k <> k' -> Obj.get (Obj.set o k v) k' = Obj.get o k'.
Proof.
  intros Hkk. induction o as [|[k0 v0] o IH]; simpl.
  - destruct (String.eqb_spec k k'); [contradiction | reflexivity].
  - destruct (String.eqb_spec k0 k) as [->|Hk]; simpl.
    + destruct (String.eqb_spec k k'); [contradiction | reflexivity].
    + now rewrite IH.
Qed.

Lemma keys_set {V} (o : Obj.t V) (k : string) (v : V) (x : string) :
  In x (Obj.keys (Obj.set o k v)) <-> In x (Obj.keys o) \/ x = k.
Proof.
  induction o as [|[k0 v0] o IH]; simpl.
  - intuition.
  - destruct (String.eqb_spec k0 k) as [->|Hk]; simpl.
    + intuition.
    + rewrite IH. intuition.
Qed.

Lemma set_fresh {V} (o : Obj.t V) (k : string) (v : V) :
  ~ In k (Obj.keys o) -> Obj.set o k v = o ++ [(k, v)].
Proof.
  induction o as [|[k0 v0] o IH]; simpl; [reflexivity|].
  intros Hk. destruct (String.eqb_spec k0 k) as [->|Hk0].
  - elim Hk. now left.
  - rewrite IH; [reflexivity | intuition].
Qed.

Lemma keys_remove_all {V} (ks : list string) : forall (o : Obj.t V),
  (forall k, In k (Obj.keys o) -> In k ks) ->
  fold_left (@Obj.remove V) ks o = [].
Proof.
  induction ks as [|k ks IH]; intros o Hall; simpl.
  - destruct o as [|[k v] o]; [reflexivity|]. elim (Hall k). now left.
  - apply IH. intros x Hx. unfold Obj.remove, Obj.keys in Hx.
    apply in_map_iff in Hx. destruct Hx as ([x' v] & <- & Hx).
    apply filter_In in Hx. destruct Hx as [Hx Hne]. simpl in *.
    destruct (Hall x') as [->|Hin].
    + now apply (in_map fst) in Hx.
    + rewrite String.eqb_refl in Hne. discriminate.
    + exact Hin.
Qed.

Lemma intersection_from_In (b : list string) (x : string) :
  forall a result,
    In x (Underscore.intersection_from result a b)
    <-> In x result \/ (In x a /\ In x b).
Proof.
  induction a as [|item a IH]; intros result; simpl.
  - tauto.
  - destruct (Underscore.contains result item) eqn:Hr.
    + rewrite IH. apply contains_In in Hr.
      split; [tauto|]. intros [Hx|[[->|Hx] Hb]]; tauto.
    + destruct (Underscore.contains b item) eqn:Hb.
      * rewrite IH, in_app_iff. simpl. apply contains_In in Hb.
        split; [intuition; subst; tauto|].
        intros [Hx|[[->|Hx] Hb']]; tauto.
      * rewrite IH. apply contains_not_In in Hb.
        split; [tauto|]. intros [Hx|[[->|Hx] Hb']]; tauto.
Qed.

Lemma intersection_In (a b : list string) (x : string) :
  In x (Underscore.intersection a b) <-> In x a /\ In x b.
Proof.
  unfold Underscore.intersection. rewrite intersection_from_In. simpl. tauto.
Qed.

(** ** The plugin reconciler *)

Section Reconciler.
Context `{Externals}.
Variable this : CordovaProject.

(** [ensurePluginsAreSynchronized] reads the installed plugins, takes
    the decision and carries it out. *)
Lemma ensurePluginsAreSynchronized_perform (plugins : Obj.t string)
      (cfg : jsarg (Obj.t string)) (w : world) :
  ensurePluginsAreSynchronized this plugins cfg w =
  match installedPluginsOf this w with
  | Threw e => (Threw e, w)
  | Returned installedPlugins =>
      match reconcile plugins installedPlugins with
      | Threw e => (Threw e, w)
      | Returned d => perform this d cfg w
      end
  end.
Proof.
  unfold ensurePluginsAreSynchronized, reconcile, perform.
  unfold bind at 1. unfold listInstalledPlugins.
  destruct (installedPluginsOf this w) as [installed|e]; [|reflexivity].
  unfold bind at 1. unfold lift.
  destruct (ofold (checkDesiredPlugin installed) plugins (false, []))
    as [[should fromLocal]|e]; simpl; [|reflexivity].
  destruct (checkInstalledPlugins plugins installed should
            || negb (Obj.isEmpty fromLocal)) eqn:Hgo; simpl.
  - rewrite Hgo. reflexivity.
  - apply orb_false_elim in Hgo. destruct Hgo as [_ Hlocal].
    rewrite Hlocal. reflexivity.
Qed.

(** *** The first loop *)

(** The desired plugin [entry] is not installed at its version. *)
Definition outdated (installed : Obj.t (option string))
    (entry : string * string) : bool :=
  negb (isUrlWithFileScheme (snd entry)) &&
  match normalizedVersion (snd entry) with
  | Returned v =>
      negb (Obj.has installed (fst entry))
      || strict_neq (prop installed (fst entry)) v
  | Threw _ => false
  end.

Definition collectLocal (o : Obj.t string) (entry : string * string)
  : Obj.t string :=
  if isUrlWithFileScheme (snd entry)
  then Obj.set o (fst entry) (snd entry) else o.

Definition normalizes (plugins : Obj.t string) : Prop :=
  forall name version,
    In (name, version) plugins -> isUrlWithFileScheme version = false ->
    exists v, normalizedVersion version = Returned v.

Lemma firstLoop_spec (installed : Obj.t (option string)) :
  forall (plugins : Obj.t string) (should : bool) (fromLocal : Obj.t string),
    normalizes plugins ->
    ofold (checkDesiredPlugin installed) plugins (should, fromLocal)
    = Returned (should || existsb (outdated installed) plugins,
                fold_left collectLocal plugins fromLocal).
Proof.
  induction plugins as [|[name version] plugins IH];
    intros should fromLocal Hnorm; simpl.
  - now rewrite orb_false_r.
  - assert (Hnorm' : normalizes plugins)
      by (intros n v Hin Hl; apply (Hnorm n v); [now right | exact Hl]).
    unfold outdated, collectLocal at 2. simpl.
    destruct (isUrlWithFileScheme version) eqn:Hlocal; simpl.
    + now rewrite IH.
    + destruct (Hnorm name version (or_introl eq_refl) Hlocal) as [v Hv].
      rewrite Hv. simpl.
      destruct (negb (Obj.has installed name)
                || strict_neq (prop installed name) v); simpl.
      * rewrite IH by assumption. now rewrite orb_true_r.
      * now rewrite IH.
Qed.

Lemma strict_neq_true (value : option string) (version : string) :
  strict_neq value version = true <-> value <> Some version.
Proof.
  unfold strict_neq. destruct value as [s|].
  - rewrite negb_true_iff, String.eqb_neq. split; congruence.
  - split; [discriminate | reflexivity].
Qed.

(** *** The second loop *)

Lemma secondLoop_true (plugins : Obj.t string)
      (installed : Obj.t (option string)) :
  checkInstalledPlugins plugins installed true = true.
Proof.
  unfold checkInstalledPlugins.
  induction installed as [|e installed IH]; simpl; [reflexivity|].
  now destruct (negb (Obj.has plugins (fst e))).
Qed.

Lemma secondLoop_false (plugins : Obj.t string)
      (installed : Obj.t (option string)) :
  (forall name, In name (Obj.keys installed) -> In name (Obj.keys plugins)) ->
  checkInstalledPlugins plugins installed false = false.
Proof.
  unfold checkInstalledPlugins.
  induction installed as [|e installed IH]; simpl; [reflexivity|].
  intros Hsub.
  assert (Hhas : Obj.has plugins (fst e) = true).
  { apply (proj2 (has_In _ _)). apply Hsub. simpl. now left. }
  rewrite Hhas. simpl. apply IH. intros n Hn. apply Hsub. now right.
Qed.

(** C2.  When every desired plugin that is not from a local path has a
    version that normalizes, and one of them is not installed or is
    installed at another version, everything is reinstalled: the plugins
    to remove are all the installed ones and the plugins to install are
    all the desired ones, and this is the decision the method carries
    out. *)
Theorem reconcile_reinstalls_all (plugins : Obj.t string)
    (installed : Obj.t (option string)) :
  normalizes plugins ->
  (exists name version v,
      In (name, version) plugins
      /\ isUrlWithFileScheme version = false
      /\ normalizedVersion version = Returned v
      /\ (Obj.has installed name = false \/ prop installed name <> Some v)) ->
  exists d,
    reconcile plugins installed = Returned d
    /\ reinstallAll d = true
    /\ toRemove d = Obj.keys installed
    /\ toInstall d = plugins
    /\ forall cfg w,
         installedPluginsOf this w = Returned installed ->
         ensurePluginsAreSynchronized this plugins cfg w
         = perform this d cfg w.
Proof.
  intros Hnorm (name & version & v & Hin & Hlocal & Hv & Hdiff).
  assert (Hout : existsb (outdated installed) plugins = true).
  { apply existsb_exists. exists (name, version). split; [assumption|].
    unfold outdated. simpl. rewrite Hlocal, Hv. simpl.
    destruct Hdiff as [Hhas|Hneq].
    - now rewrite Hhas.
    - apply strict_neq_true in Hneq. rewrite Hneq. apply orb_true_r. }
  assert (Hrec : reconcile plugins installed =
                 Returned (Decision true (fold_left collectLocal plugins [])
                                    (Obj.keys installed) plugins)).
  { unfold reconcile. rewrite firstLoop_spec by assumption.
    rewrite Hout. simpl. now rewrite secondLoop_true. }
  eexists. split; [exact Hrec|]. repeat split.
  intros cfg w Hw.
  now rewrite ensurePluginsAreSynchronized_perform, Hw, Hrec.
Qed.
End Reconciler.

Lemma reconcile_reinstalls_all_witness :
  exists d,
    reconcile [("camera", "1.0.0"); ("viewer", "file:///plugins/viewer")]
              [("camera", Some "0.9.0"); ("legacy", Some "2.0.0")]
    = Returned d
    /\ reinstallAll d = true
    /\ toRemove d = ["camera"; "legacy"]
    /\ toInstall d = [("camera", "1.0.0"); ("viewer", "file:///plugins/viewer")].
Proof.
  destruct (@reconcile_reinstalls_all Fixture.externals Fixture.project
              [("camera", "1.0.0"); ("viewer", "file:///plugins/viewer")]
              [("camera", Some "0.9.0"); ("legacy", Some "2.0.0")])
    as (d & Hd & Hall & Hrm & Hadd & _).
  - intros name version [[= <- <-]|[[= <- <-]|[]]] Hlocal.
    + exists "1.0.0". reflexivity.
    + discriminate Hlocal.
  - exists "camera", "1.0.0", "1.0.0".
    split; [now left|]. split; [reflexivity|]. split; [reflexivity|].
    right. discriminate.
  - exists d. repeat split; assumption.
Defined.

Section LocalPath.
Context `{Externals}.
Variable this : CordovaProject.

Definition fromLocalPathOf (plugins : Obj.t string) : Obj.t string :=
  filter (fun entry => isUrlWithFileScheme (snd entry)) plugins.

Lemma collectLocal_wf : forall (plugins acc : Obj.t string),
  NoDup (Obj.keys acc ++ Obj.keys plugins) ->
  fold_left collectLocal plugins acc = acc ++ fromLocalPathOf plugins.
Proof.
  induction plugins as [|[name version] plugins IH]; intros acc Hnd; simpl.
  - now rewrite app_nil_r.
  - unfold collectLocal at 2. simpl.
    destruct (isUrlWithFileScheme version) eqn:Hlocal.
    + rewrite set_fresh.
      * rewrite IH; [now rewrite <- app_assoc|].
        unfold Obj.keys in *. rewrite map_app, <- app_assoc. exact Hnd.
      * apply NoDup_remove_2 in Hnd. intros Hin. apply Hnd.
        apply in_or_app. now left.
    + apply IH. now apply NoDup_remove_1 in Hnd.
Qed.

Lemma existsb_false {A} (f : A -> bool) (l : list A) :
  (forall x, In x l -> f x = false) -> existsb f l = false.
Proof.
  intros Hf. destruct (existsb f l) eqn:E; [|reflexivity].
  apply existsb_exists in E. destruct E as (x & Hx & Hfx).
  now rewrite (Hf x Hx) in Hfx.
Qed.

(** Every desired plugin that is not from a local path is installed at
    its normalized version. *)
Definition upToDate (plugins : Obj.t string)
    (installed : Obj.t (option string)) : Prop :=
  forall name version,
    In (name, version) plugins -> isUrlWithFileScheme version = false ->
    exists v, normalizedVersion version = Returned v
              /\ Obj.has installed name = true
              /\ prop installed name = Some v.

Lemma upToDate_normalizes plugins installed :
  upToDate plugins installed -> normalizes plugins.
Proof.
  intros Hup name version Hin Hlocal.
  destruct (Hup name version Hin Hlocal) as (v & Hv & _). eauto.
Qed.

Lemma upToDate_outdated plugins installed :
  upToDate plugins installed ->
  existsb (outdated installed) plugins = false.
Proof.
  intros Hup. apply existsb_false. intros [name version] Hin.
  unfold outdated. simpl.
  destruct (isUrlWithFileScheme version) eqn:Hlocal; [reflexivity|].
  destruct (Hup name version Hin Hlocal) as (v & Hv & Hhas & Hprop).
  rewrite Hv, Hhas, Hprop. simpl. now rewrite String.eqb_refl.
Qed.

(** The decision taken when nothing but local-path plugins can differ. *)
Lemma reconcile_upToDate plugins installed :
  Obj.wf plugins ->
  upToDate plugins installed ->
  (forall name, In name (Obj.keys installed) -> In name (Obj.keys plugins)) ->
  exists d,
    reconcile plugins installed = Returned d
    /\ reinstallAll d = false
    /\ toRemove d = Underscore.intersection
                      (Obj.keys (fromLocalPathOf plugins))
                      (Obj.keys installed)
    /\ toInstall d = fromLocalPathOf plugins.
Proof.
  intros Hwf Hup Hsub. unfold reconcile.
  rewrite firstLoop_spec by (eapply upToDate_normalizes; eauto).
  rewrite upToDate_outdated by assumption.
  rewrite collectLocal_wf by exact Hwf. simpl.
  rewrite secondLoop_false by assumption. simpl.
  destruct (fromLocalPathOf plugins) as [|e l] eqn:Hl; simpl.
  - eexists. repeat split.
  - eexists. repeat split.
Qed.

(** C3.  When every installed plugin is a desired one and every desired
    plugin that is not from a local path is installed at its normalized
    version, nothing is reinstalled wholesale: the plugins removed are
    the local-path plugins of the desired map that are installed, and the
    plugins installed are the local-path plugins of the desired map. *)
Theorem reconcile_local_path_only (plugins : Obj.t string)
    (installed : Obj.t (option string)) :
  Obj.wf plugins ->
  upToDate plugins installed ->
  (forall name, In name (Obj.keys installed) -> In name (Obj.keys plugins)) ->
  exists d,
    reconcile plugins installed = Returned d
    /\ reinstallAll d = false
    /\ (forall name,
          In name (toRemove d) <->
          (exists version, In (name, version) plugins
                           /\ isUrlWithFileScheme version = true)
          /\ In name (Obj.keys installed))
    /\ (forall name version,
          In (name, version) (toInstall d) <->
          In (name, version) plugins /\ isUrlWithFileScheme version = true)
    /\ forall cfg w,
         installedPluginsOf this w = Returned installed ->
         ensurePluginsAreSynchronized this plugins cfg w
         = perform this d cfg w.
Proof.
  intros Hwf Hup Hsub.
  destruct (reconcile_upToDate Hwf Hup Hsub) as (d & Hd & Hall & Hrm & Hadd).
  exists d. split; [exact Hd|]. split; [exact Hall|]. split; [|split].
  - intros name. rewrite Hrm, intersection_In.
    unfold Obj.keys at 1, fromLocalPathOf. rewrite in_map_iff.
    split.
    + intros [([n v] & <- & Hin) Hinst]. apply filter_In in Hin.
      simpl in *. split; [exists v; tauto | assumption].
    + intros [(v & Hin & Hlocal) Hinst]. split; [|assumption].
      exists (name, v). split; [reflexivity|].
      apply filter_In. now split.
  - intros name version. rewrite Hadd. unfold fromLocalPathOf.
    now rewrite filter_In.
  - intros cfg w Hw.
    now rewrite ensurePluginsAreSynchronized_perform, Hw, Hd.
Qed.
End LocalPath.

Lemma reconcile_local_path_only_witness :
  exists d,
    reconcile [("camera", "1.0.0"); ("viewer", "file:///plugins/viewer");
               ("scanner", "file:///plugins/scanner")]
              [("camera", Some "1.0.0"); ("viewer", Some "/plugins/viewer")]
    = Returned d
    /\ reinstallAll d = false
    /\ toRemove d = ["viewer"]
    /\ toInstall d = [("viewer", "file:///plugins/viewer");
                      ("scanner", "file:///plugins/scanner")].
Proof.
  destruct (@reconcile_local_path_only Fixture.externals Fixture.project
              [("camera", "1.0.0"); ("viewer", "file:///plugins/viewer");
               ("scanner", "file:///plugins/scanner")]
              [("camera", Some "1.0.0"); ("viewer", Some "/plugins/viewer")])
    as (d & Hd & Hall & _).
  - repeat constructor; simpl; intuition discriminate.
  - intros name version [[= <- <-]|[[= <- <-]|[[= <- <-]|[]]]] Hlocal;
      try discriminate Hlocal.
    exists "1.0.0". repeat split.
  - simpl. intuition.
  - exists d. split; [exact Hd|]. split; [exact Hall|].
    vm_compute in Hd. injection Hd as <-. split; reflexivity.
Defined.

(** C3 as stated fails: the installed map may hold a plugin from a local
    path that is not desired.  Here the two maps agree on [camera], their
    only plugin that is not from a local path, and differ in plugins from
    a local path only; yet the second loop asks for everything to be
    reinstalled, and [camera] is removed and added again. *)
Lemma reconcile_local_path_only_stale_local_plugin :
  let plugins := [("camera", "1.0.0"); ("viewer", "file:///plugins/viewer")] in
  let installed :=
    [("camera", Some "1.0.0"); ("scanner", Some "/plugins/scanner")] in
  let w0 :=
    Fixture.start
      (Fixture.Build []
         [("camera", registry "camera@1.0.0");
          ("scanner", local "/plugins/scanner")]
         [("camera@1.0.0", ("camera", registry "camera@1.0.0"));
          ("/plugins/viewer", ("viewer", local "/plugins/viewer"))]) in
  let run := ensurePluginsAreSynchronized Fixture.project plugins Undefined w0 in
  installedPluginsOf Fixture.project w0 = Returned installed
  /\ reconcile plugins installed
     = Returned (Decision true [("viewer", "file:///plugins/viewer")]
                          ["camera"; "scanner"] plugins)
  /\ fst run = Returned tt
  /\ calls (out (snd run))
     = [plugin_rm ["camera"; "scanner"] (Options true false);
        plugin_add "camera@1.0.0" (Options true false);
        plugin_add "/plugins/viewer" (Options true false)].
Proof.
  vm_compute. repeat split; reflexivity.
Qed.

(** ** Running the reconciliation twice *)

Section Idempotence.
Context `{Externals}.
Variable this : CordovaProject.

(** The contract of the toolchain under which a second run is looked at:
    a remove drops the named plugins from the plugin metadata, and an add
    of a desired plugin leaves it listed under its name, at the version
    the reconciler compares with (the path given to the toolchain for a
    plugin from a local path). *)
Definition recordedVersion (version : string) : option string :=
  if isUrlWithFileScheme version then
    Some (convertToOSPath (resolveCordovaLocalPluginPath this version))
  else
    match normalizedVersion version with
    | Returned v => Some v
    | Threw _ => None
    end.

Definition installedAfter (d : decision) (installed : Obj.t (option string))
  : Obj.t (option string) :=
  fold_left (fun o entry => Obj.set o (fst entry) (recordedVersion (snd entry)))
            (toInstall d)
            (fold_left (@Obj.remove (option string)) (toRemove d) installed).

Definition installedAfterRun (plugins : Obj.t string)
    (installed : Obj.t (option string)) : Obj.t (option string) :=
  match reconcile plugins installed with
  | Returned d => installedAfter d installed
  | Threw _ => installed
  end.

Definition noLocalPath (plugins : Obj.t string) : Prop :=
  forall name version,
    In (name, version) plugins -> isUrlWithFileScheme version = false.

Lemma recorded_get : forall (plugins : Obj.t string) acc name version,
  Obj.wf plugins -> In (name, version) plugins ->
  Obj.get (fold_left (fun o entry =>
                        Obj.set o (fst entry) (recordedVersion (snd entry)))
                     plugins acc) name
  = Some (recordedVersion version).
Proof.
  assert (Hkeep : forall (plugins : Obj.t string) acc name,
    ~ In name (Obj.keys plugins) ->
    Obj.get (fold_left (fun o entry =>
                          Obj.set o (fst entry) (recordedVersion (snd entry)))
                       plugins acc) name
    = Obj.get acc name).
  { induction plugins as [|[n v] plugins IH]; intros acc name Hn; simpl;
      [reflexivity|].
    rewrite IH by (intros Hin; apply Hn; now right).
    apply get_set_other. intros ->. apply Hn. now left. }
  unfold Obj.wf.
  induction plugins as [|[n v] plugins IH]; intros acc name version Hnd Hin;
    simpl in *; [contradiction|].
  inversion Hnd as [|? ? Hn Hnd']; subst.
  destruct Hin as [[= -> ->]|Hin].
  - rewrite Hkeep by assumption. apply get_set_same.
  - now apply IH.
Qed.

Lemma recorded_keys : forall (plugins : Obj.t string) acc name,
  In name (Obj.keys (fold_left (fun o entry =>
                        Obj.set o (fst entry) (recordedVersion (snd entry)))
                     plugins acc)) ->
  In name (Obj.keys acc) \/ In name (Obj.keys plugins).
Proof.
  induction plugins as [|[n v] plugins IH]; intros acc name Hin; simpl in *;
    [now left|].
  apply IH in Hin. destruct Hin as [Hin|Hin]; [|tauto].
  apply keys_set in Hin. destruct Hin as [Hin| ->]; tauto.
Qed.

Lemma noLocalPath_collect (plugins : Obj.t string) :
  noLocalPath plugins -> forall acc, fold_left collectLocal plugins acc = acc.
Proof.
  induction plugins as [|[n v] plugins IH]; intros Hno acc; simpl;
    [reflexivity|].
  unfold collectLocal at 2. simpl.
  rewrite (Hno n v (or_introl eq_refl)).
  apply IH. intros n' v' Hin. apply (Hno n' v'). now right.
Qed.

Lemma firstLoop_normalizes (installed : Obj.t (option string)) :
  forall (plugins : Obj.t string) vars r,
    ofold (checkDesiredPlugin installed) plugins vars = Returned r ->
    normalizes plugins.
Proof.
  induction plugins as [|[n v] plugins IH];
    intros [should fromLocal] r Hrec name version Hin; [contradiction|].
  simpl in Hrec.
  destruct Hin as [[= -> ->]|Hin].
  - intros Hlocal. rewrite Hlocal in Hrec.
    destruct (normalizedVersion version) as [v'|e]; [eauto | discriminate].
  - destruct (isUrlWithFileScheme v).
    + simpl in Hrec. exact (IH _ _ Hrec name version Hin).
    + destruct (normalizedVersion v) as [v'|e]; [|discriminate].
      simpl in Hrec.
      destruct (negb (Obj.has installed n)
                || strict_neq (prop installed n) v');
        simpl in Hrec; exact (IH _ _ Hrec name version Hin).
Qed.

Lemma reconcile_normalizes (plugins : Obj.t string)
      (installed : Obj.t (option string)) (d : decision) :
  reconcile plugins installed = Returned d -> normalizes plugins.
Proof.
  unfold reconcile. intros Hrec.
  destruct (ofold (checkDesiredPlugin installed) plugins (false, []))
    as [r|e] eqn:Hloop; [|discriminate].
  eapply firstLoop_normalizes; eauto.
Qed.

(** After everything was reinstalled, a desired map without local-path
    plugins is up to date. *)
Lemma reinstalled_upToDate (plugins : Obj.t string)
      (installed : Obj.t (option string)) :
  Obj.wf plugins -> noLocalPath plugins -> normalizes plugins ->
  let after := installedAfter
                 (Decision true [] (Obj.keys installed) plugins) installed in
  upToDate plugins after
  /\ forall name, In name (Obj.keys after) -> In name (Obj.keys plugins).
Proof.
  intros Hwf Hno Hnorm after. subst after. unfold installedAfter. simpl.
  rewrite keys_remove_all by auto. split.
  - intros name version Hin Hlocal.
    destruct (Hnorm name version Hin Hlocal) as [v Hv].
    exists v. split; [exact Hv|].
    unfold Obj.has, prop. rewrite (recorded_get _ _ _ Hwf Hin).
    unfold recordedVersion. now rewrite Hlocal, Hv.
  - intros name Hin. apply recorded_keys in Hin.
    destruct Hin as [[]|Hin]. exact Hin.
Qed.

(** Nothing is to be done for an up-to-date map without local-path
    plugins. *)
Lemma reconcile_quiet (plugins : Obj.t string)
      (installed : Obj.t (option string)) :
  noLocalPath plugins ->
  upToDate plugins installed ->
  (forall name, In name (Obj.keys installed) -> In name (Obj.keys plugins)) ->
  reconcile plugins installed = Returned (Decision false [] [] []).
Proof.
  intros Hno Hup Hsub. unfold reconcile.
  rewrite firstLoop_spec by (eapply upToDate_normalizes; eauto).
  rewrite upToDate_outdated, noLocalPath_collect by assumption.
  simpl. now rewrite secondLoop_false.
Qed.

(** A desired map with a plugin from a local path is never at rest:
    whatever is installed, the decision installs something. *)
Lemma reconcile_local_path_installs (plugins : Obj.t string)
      (installed : Obj.t (option string)) (d : decision)
      (name version : string) :
  In (name, version) plugins -> isUrlWithFileScheme version = true ->
  reconcile plugins installed = Returned d ->
  toInstall d <> [].
Proof.
  intros Hin Hlocal Hd.
  pose proof (reconcile_normalizes _ _ Hd) as Hnorm.
  unfold reconcile in Hd. rewrite firstLoop_spec in Hd by assumption.
  simpl in Hd.
  assert (Hkey : forall (l acc : Obj.t string),
    In name (Obj.keys acc) \/ In (name, version) l ->
    In name (Obj.keys (fold_left collectLocal l acc))).
  { induction l as [|[n v] l IH]; intros acc Hacc; simpl.
    - destruct Hacc as [Hacc|[]]. exact Hacc.
    - apply IH. destruct Hacc as [Hacc|[[= -> ->]|Hl]].
      + left. unfold collectLocal. simpl.
        destruct (isUrlWithFileScheme v); [|exact Hacc].
        apply keys_set. now left.
      + left. unfold collectLocal. simpl. rewrite Hlocal.
        apply keys_set. now right.
      + now right. }
  specialize (Hkey plugins [] (or_intror Hin)).
  destruct (fold_left collectLocal plugins []) as [|e l] eqn:Hl;
    [contradiction|].
  rewrite orb_true_r in Hd. injection Hd as <-. simpl.
  unfold pluginsToInstall.
  destruct (checkInstalledPlugins plugins installed _).
  - intros ->. contradiction.
  - discriminate.
Qed.

(** C1, amended.  For a desired map without plugins from a local path: if
    a first run returns, and the plugin metadata then lists what its
    removes and adds leave (see [installedAfter]), a second run with the
    same desired map returns without any effect; it asks nothing of the
    toolchain. *)
Theorem ensurePluginsAreSynchronized_twice (plugins : Obj.t string)
    (cfg : jsarg (Obj.t string)) (installed : Obj.t (option string))
    (w0 w1 : world) :
  Obj.wf plugins ->
  noLocalPath plugins ->
  installedPluginsOf this w0 = Returned installed ->
  ensurePluginsAreSynchronized this plugins cfg w0 = (Returned tt, w1) ->
  installedPluginsOf this w1
  = Returned (installedAfterRun plugins installed) ->
  ensurePluginsAreSynchronized this plugins cfg w1 = (Returned tt, w1).
Proof.
  intros Hwf Hno Hw0 Hrun Hw1.
  rewrite ensurePluginsAreSynchronized_perform, Hw0 in Hrun.
  rewrite ensurePluginsAreSynchronized_perform, Hw1.
  unfold installedAfterRun.
  destruct (reconcile plugins installed) as [d|e] eqn:Hd; [|discriminate].
  pose proof (reconcile_normalizes _ _ Hd) as Hnorm.
  assert (Hquiet : forall inst,
    reconcile plugins inst = Returned (Decision false [] [] []) ->
    match reconcile plugins inst with
    | Returned d' => perform this d' cfg w1
    | Threw e => (Threw e, w1)
    end = (Returned tt, w1)).
  { intros inst ->. reflexivity. }
  unfold reconcile in Hd.
  rewrite firstLoop_spec, noLocalPath_collect in Hd by assumption.
  simpl in Hd. rewrite orb_false_r in Hd.
  destruct (checkInstalledPlugins plugins installed
              (existsb (outdated installed) plugins)) eqn:Hshould;
    injection Hd as <-.
  - apply Hquiet.
    destruct (reinstalled_upToDate installed Hwf Hno Hnorm) as [Hup Hsub].
    now apply reconcile_quiet.
  - apply Hquiet. unfold installedAfter. simpl.
    unfold reconcile.
    rewrite firstLoop_spec, noLocalPath_collect by assumption.
    simpl. rewrite orb_false_r, Hshould. reflexivity.
Qed.
End Idempotence.

Lemma ensurePluginsAreSynchronized_twice_witness :
  let plugins :=
    [("camera", "1.0.0");
     ("updater", "https://github.com/meteor/com.meteor.cordova-update/tarball/"
                   +++ Fixture.sha)] in
  let w0 :=
    Fixture.start
      (Fixture.Build [] []
         [("camera@1.0.0", ("camera", registry "camera@1.0.0"));
          ("https://github.com/meteor/com.meteor.cordova-update.git#"
             +++ Fixture.sha,
           ("updater",
            git "https://github.com/meteor/com.meteor.cordova-update.git"
                Fixture.sha))]) in
  let w1 :=
    snd (ensurePluginsAreSynchronized Fixture.project plugins Undefined w0) in
  calls (out w1) <> []
  /\ ensurePluginsAreSynchronized Fixture.project plugins Undefined w1
     = (Returned tt, w1).
Proof.
  intros plugins w0 w1. split; [vm_compute; discriminate|].
  apply (@ensurePluginsAreSynchronized_twice Fixture.externals Fixture.project
           plugins Undefined [] w0 w1).
  - repeat constructor; simpl; intuition discriminate.
  - intros name version [[= <- <-]|[[= <- <-]|[]]]; reflexivity.
  - reflexivity.
  - vm_compute. reflexivity.
  - vm_compute. reflexivity.
Defined.

(** C1 as stated fails: a plugin from a local path is removed and added
    again by every run.  Here the second of two runs in a row, between
    which only the first run's own add changed the plugin metadata, asks
    the toolchain for one remove and one add. *)
Lemma ensurePluginsAreSynchronized_twice_local_path :
  let plugins := [("viewer", "file:///plugins/viewer")] in
  let w0 :=
    Fixture.start
      (Fixture.Build [] []
         [("/plugins/viewer", ("viewer", local "/plugins/viewer"))]) in
  let first := ensurePluginsAreSynchronized Fixture.project plugins Undefined w0 in
  let second :=
    ensurePluginsAreSynchronized Fixture.project plugins Undefined (snd first) in
  fst first = Returned tt
  /\ fst second = Returned tt
  /\ calls (out (snd second))
     = calls (out (snd first))
       ++ [plugin_rm ["viewer"] (Options true false);
           plugin_add "/plugins/viewer" (Options true false)]
  /\ calls (out (snd second)) <> calls (out (snd first)).
Proof.
  vm_compute. repeat split; discriminate.
Qed.

(** * Further properties of the resolver *)

Lemma exec_Dot_cons c pre tl g :
  exec Dot (MState pre (String c tl) g) =
  if negb (isLineTerminator c) then [MState (pre +++ String c "") tl g]
  else [].
Proof. reflexivity. Qed.

Section TarballPatternAnywhere.
Variables (org repo sha suffix : string).
Hypothesis org_ne : truthy org = true.
Hypothesis repo_ne : truthy repo = true.
Hypothesis org_ok : allChars nameChar org = true.
Hypothesis repo_ok : allChars nameChar repo = true.
Hypothesis sha_len : String.length sha = 40.
Hypothesis sha_hex : allChars isLowerHex sha = true.

Local Arguments isLineTerminator : simpl never.

Lemma truthy_ne (s : string) : truthy s = true -> s <> "".
Proof. now intros Hs ->. Qed.

Lemma exec_sha_then pre g :
  exec (Seq (Lit "/tarball/") (Grp (Rep 40 (Cls isLowerHex))))
       (MState pre ("/tarball/" +++ sha +++ suffix) g)
  = [MState (pre +++ "/tarball/" +++ sha) suffix (g ++ [sha])].
Proof.
  rewrite exec_Seq, exec_Lit, flat_map_one, exec_Grp.
  rewrite exec_Rep_Cls by assumption. simpl map.
  rewrite captured_app, sapp_assoc. reflexivity.
Qed.

Lemma exec_repo_then pre g :
  hd_error
    (exec (Seq (Grp (PlusLazy Dot))
               (Seq (Lit "/tarball/") (Grp (Rep 40 (Cls isLowerHex)))))
          (MState pre (repo +++ "/tarball/" +++ sha +++ suffix) g))
  = Some (MState (pre +++ repo +++ "/tarball/" +++ sha) suffix
                 (g ++ [repo; sha])).
Proof.
  rewrite exec_Seq, exec_Grp, flat_map_map', exec_PlusLazy.
  apply plusLazy_Dot_stops with (K := fun x =>
    exec (Seq (Lit "/tarball/") (Grp (Rep 40 (Cls isLowerHex))))
         (MState (seen x) (rest x)
                 (groups x ++
                  [captured (MState pre
                     (repo +++ "/tarball/" +++ sha +++ suffix) g) x]))).
  - now apply truthy_ne.
  - now apply nameChar_noLineBreak.
  - intros s1 c s2 Hs _. cbv beta. simpl seen; simpl rest.
    change (Lit "/tarball/") with (Seq (Chr "/") (Lit "tarball/")).
    apply exec_Seq_nil, exec_Seq_nil. simpl append.
    now rewrite exec_Chr_cons, (@nameChar_inside _ _ _ _ repo_ok Hs).
  - cbv beta. simpl seen; simpl rest; simpl groups.
    rewrite captured_app, exec_sha_then, sapp_assoc, <- app_assoc.
    reflexivity.
  - simpl rest. rewrite slength_app. lia.
Qed.

Lemma exec_org_then pre g :
  hd_error
    (exec (Seq (Grp (PlusLazy Dot)) (Seq (Chr "/")
            (Seq (Grp (PlusLazy Dot))
                 (Seq (Lit "/tarball/") (Grp (Rep 40 (Cls isLowerHex)))))))
          (MState pre
             (org +++ "/" +++ repo +++ "/tarball/" +++ sha +++ suffix) g))
  = Some (MState (pre +++ org +++ "/" +++ repo +++ "/tarball/" +++ sha)
                 suffix (g ++ [org; repo; sha])).
Proof.
  rewrite exec_Seq, exec_Grp, flat_map_map', exec_PlusLazy.
  apply plusLazy_Dot_stops with (K := fun x =>
    exec (Seq (Chr "/") (Seq (Grp (PlusLazy Dot))
            (Seq (Lit "/tarball/") (Grp (Rep 40 (Cls isLowerHex))))))
         (MState (seen x) (rest x)
                 (groups x ++
                  [captured (MState pre
                     (org +++ "/" +++ repo +++ "/tarball/" +++ sha
                        +++ suffix) g) x]))).
  - now apply truthy_ne.
  - now apply nameChar_noLineBreak.
  - intros s1 c s2 Hs _. cbv beta. simpl seen; simpl rest.
    apply exec_Seq_nil. simpl append.
    now rewrite exec_Chr_cons, (@nameChar_inside _ _ _ _ org_ok Hs).
  - cbv beta. simpl seen; simpl rest; simpl groups.
    rewrite captured_app, exec_Seq.
    simpl append. rewrite exec_Chr_cons, Ascii.eqb_refl, flat_map_one.
    etransitivity;
      [apply (exec_repo_then ((pre +++ org) +++ "/") (g ++ [org]))|].
    rewrite !sapp_assoc, <- app_assoc. reflexivity.
  - simpl rest. rewrite slength_app. lia.
Qed.

(** X1.  [convertToGitUrl] rewrites to the [https] git URL of github.com
    also when the URL starts with [http], when any character that is not a
    line break stands where the dot of [github.com] is expected, and
    whatever follows the SHA, which is dropped. *)
Theorem convertToGitUrl_rewrites_lookalikes (secure : bool) (dot : ascii) :
  isLineTerminator dot = false ->
  convertToGitUrl
    ((if secure then "https" else "http") +++ "://github"
       +++ String dot ("com/" +++ org +++ "/" +++ repo +++ "/tarball/"
                         +++ sha +++ suffix))
  = Returned ("https://github.com/" +++ org +++ "/" +++ repo
                +++ ".git#" +++ sha).
Proof.
  intros Hdot.
  assert (Hhd : exists st,
    hd_error (exec tarballUrlPattern
      (MState ""
         ((if secure then "https" else "http") +++ "://github"
            +++ String dot ("com/" +++ org +++ "/" +++ repo +++ "/tarball/"
                              +++ sha +++ suffix)) []))
    = Some st /\ groups st = [org; repo; sha]).
  { unfold tarballUrlPattern.
    remember (Seq (Grp (PlusLazy Dot))
                (Seq (Chr "/") (Seq (Grp (PlusLazy Dot))
                   (Seq (Lit "/tarball/")
                        (Grp (Rep 40 (Cls isLowerHex))))))) as T eqn:ET.
    destruct secure; eexists; cbn; rewrite Hdot; cbn; rewrite !app_nil_r;
      subst T; (split; [apply exec_org_then | reflexivity]). }
  destruct Hhd as (st & Hst & Hg).
  unfold convertToGitUrl, re_match.
  rewrite (searchFrom_hd _ _ _ Hst), Hg. reflexivity.
Qed.
End TarballPatternAnywhere.

Lemma convertToGitUrl_rewrites_lookalikes_witness :
  convertToGitUrl
    ("http" +++ "://github"
       +++ String "-" ("com/" +++ "meteor" +++ "/" +++ "blaze" +++ "/tarball/"
                         +++ Fixture.sha +++ "?download=1"))
  = Returned ("https://github.com/" +++ "meteor" +++ "/" +++ "blaze"
                +++ ".git#" +++ Fixture.sha).
Proof.
  exact (@convertToGitUrl_rewrites_lookalikes "meteor" "blaze" Fixture.sha
           "?download=1" eq_refl eq_refl eq_refl eq_refl eq_refl eq_refl
           false "-" eq_refl).
Defined.

Lemma searchFrom_Lit_inv (l : string) : forall s pre found,
  searchFrom (Lit l) pre s = Some found -> exists a b, s = a +++ l +++ b.
Proof.
  induction s as [|c s IH]; intros pre found Hfound; simpl in Hfound.
  - destruct (exec (Lit l) (MState pre "" [])) eqn:E; [discriminate|].
    destruct (@exec_Lit_inv l pre "" []) as [tl Htl]; [now rewrite E|].
    now exists "", tl.
  - destruct (exec (Lit l) (MState pre (String c s) [])) eqn:E.
    + destruct (IH _ _ Hfound) as (a & b & ->). now exists (String c a), b.
    + destruct (@exec_Lit_inv l pre (String c s) []) as [tl Htl];
        [now rewrite E|].
      now exists "", tl.
Qed.

Lemma re_test_Lit_inv (l s : string) :
  re_test (Lit l) s = true -> exists a b, s = a +++ l +++ b.
Proof.
  unfold re_test. destruct (searchFrom (Lit l) "" s) eqn:E; [|discriminate].
  intros _. eapply searchFrom_Lit_inv; eauto.
Qed.

(** X2.  Whatever [convertToGitUrl] returns holds [.git], and is itself
    accepted by [convertToGitUrl]: a normalized version is never rejected
    as a tarball URL. *)
Theorem convertToGitUrl_result_accepted (url u : string) :
  convertToGitUrl url = Returned u ->
  (exists a b, u = a +++ ".git" +++ b)
  /\ exists u', convertToGitUrl u = Returned u'.
Proof.
  intros Hu.
  assert (Hgit : exists a b, u = a +++ ".git" +++ b).
  { unfold convertToGitUrl in Hu.
    destruct (re_match tarballUrlPattern url) as [m|].
    - injection Hu as <-.
      exists ("https://github.com/" +++ nth 1 m "" +++ "/" +++ nth 2 m ""),
             ("#" +++ nth 3 m "").
      now rewrite !sapp_assoc.
    - destruct (re_test dotGitPattern url) eqn:Ht; [|discriminate].
      injection Hu as <-. now apply re_test_Lit_inv. }
  split; [exact Hgit|].
  unfold convertToGitUrl.
  destruct (re_match tarballUrlPattern u) as [m|]; [eauto|].
  unfold dotGitPattern. rewrite re_test_Lit_true by exact Hgit. eauto.
Qed.

Lemma convertToGitUrl_result_accepted_witness :
  (exists a b,
      "https://github.com/meteor/blaze.git#" +++ Fixture.sha
      = a +++ ".git" +++ b)
  /\ exists u',
       convertToGitUrl ("https://github.com/meteor/blaze.git#" +++ Fixture.sha)
       = Returned u'.
Proof.
  apply (@convertToGitUrl_result_accepted
           ("https://github.com/meteor/blaze/tarball/" +++ Fixture.sha)).
  vm_compute. reflexivity.
Defined.

Section ResolverFacts.
Context `{Externals}.
Variable this : CordovaProject.

(** X3.  The resolution of a target fails in one way only: the version is
    not empty, the helper takes it for a URL with a SHA, the tarball
    pattern does not match it and it holds no [.git]; the error is the one
    on tarball URLs. *)
Theorem targetForPlugin_fails_only_on_sha_urls (name version : string)
    (e : exn) :
  targetForPlugin this name version = Threw e ->
  e = Error tarballUrlMessage
  /\ truthy version = true
  /\ isUrlWithSha version = true
  /\ re_match tarballUrlPattern version = None
  /\ forall a b, version <> a +++ ".git" +++ b.
Proof.
  unfold targetForPlugin.
  destruct (truthy version); simpl; [|discriminate].
  destruct (isUrlWithSha version).
  - unfold convertToGitUrl.
    destruct (re_match tarballUrlPattern version); [discriminate|].
    destruct (re_test dotGitPattern version) eqn:Ht; [discriminate|].
    intros [= <-]. repeat split. now apply dotGit_absent.
  - destruct (isUrlWithFileScheme version); discriminate.
Qed.

Lemma substr_app (a b : string) : substr (String.length a) (a +++ b) = b.
Proof.
  unfold substr. rewrite slength_app.
  replace (String.length a + String.length b - String.length a)
    with (String.length b) by lia.
  apply substring_skip.
Qed.

Lemma split_from_plain (sep : ascii) : forall s cur,
  allChars (fun c => negb (Ascii.eqb c sep)) s = true ->
  split_from sep cur s = [cur +++ s].
Proof.
  induction s as [|c s IH]; intros cur Hs; simpl.
  - now rewrite sapp_nil_r.
  - simpl in Hs. apply andb_prop in Hs. destruct Hs as [Hc Hs].
    apply negb_true_iff in Hc. rewrite Hc, IH by assumption.
    now rewrite sapp_assoc.
Qed.

Lemma split_from_app (sep : ascii) : forall a cur b,
  allChars (fun c => negb (Ascii.eqb c sep)) a = true ->
  split_from sep cur (a +++ String sep b)
  = (cur +++ a) :: split_from sep "" b.
Proof.
  induction a as [|c a IH]; intros cur b Ha; simpl.
  - now rewrite Ascii.eqb_refl, sapp_nil_r.
  - simpl in Ha. apply andb_prop in Ha. destruct Ha as [Hc Ha].
    apply negb_true_iff in Hc. rewrite Hc, IH by assumption.
    now rewrite sapp_assoc.
Qed.

Definition noAt (s : string) : bool :=
  allChars (fun c => negb (Ascii.eqb c "@")) s.

(** X5.  A registry plugin reads back at its version: for a name and a
    version without [@], the target is [name@version], and a [registry]
    source with that id has the version [listInstalledPlugins] compares
    with the desired one. *)
Theorem registry_target_reads_back (name version : string) :
  truthy version = true ->
  isUrlWithSha version = false ->
  isUrlWithFileScheme version = false ->
  noAt name = true -> noAt version = true ->
  targetForPlugin this name version = Returned (name +++ "@" +++ version)
  /\ versionOfSource (registry (name +++ "@" +++ version)) = Some version.
Proof.
  intros Ht Hsha Hfile Hname Hversion. split.
  - unfold targetForPlugin. now rewrite Ht, Hsha, Hfile.
  - unfold versionOfSource, split. simpl append.
    rewrite split_from_app by exact Hname.
    rewrite split_from_plain by exact Hversion. reflexivity.
Qed.

(** X6.  A registry id that starts with [@], as that of a scoped package,
    is not read back at its version: the version of [@<scope>@<version>]
    is taken to be [<scope>], so that a desired version other than
    [<scope>] always counts as changed. *)
Theorem scoped_id_reads_back_wrong (scope version : string) :
  noAt scope = true -> scope <> version ->
  versionOfSource (registry ("@" +++ scope +++ "@" +++ version)) = Some scope
  /\ strict_neq (versionOfSource
                   (registry ("@" +++ scope +++ "@" +++ version))) version
     = true.
Proof.
  intros Hscope Hne.
  assert (Hread :
    versionOfSource (registry ("@" +++ scope +++ "@" +++ version))
    = Some scope).
  { unfold versionOfSource, split. simpl.
    rewrite (split_from_app "@" scope "" version Hscope). reflexivity. }
  split; [exact Hread|]. rewrite Hread. simpl.
  apply negb_true_iff. now apply String.eqb_neq.
Qed.

Lemma object_wf {V} : forall (pairs acc : list (string * V)),
  NoDup (Obj.keys acc ++ Obj.keys pairs) ->
  fold_left (fun o kv => Obj.set o (fst kv) (snd kv)) pairs acc
  = acc ++ pairs.
Proof.
  induction pairs as [|[k v] pairs IH]; intros acc Hnd; simpl.
  - now rewrite app_nil_r.
  - rewrite set_fresh.
    + rewrite IH; [now rewrite <- app_assoc|].
      unfold Obj.keys in *. rewrite map_app, <- app_assoc. exact Hnd.
    + apply NoDup_remove_2 in Hnd. intros Hin. apply Hnd.
      apply in_or_app. now left.
Qed.

(** X7.  [listInstalledPlugins] lists the plugins of [fetch.json] one for
    one and in their order, each at the version of its source, and leaves
    the world as it is. *)
Theorem listInstalledPlugins_lists_metadata (w : world)
    (metadata : Obj.t source) :
  readFetchJson (disk (proc w)) (pathJoin (pluginsDir this) "fetch.json")
  = Returned metadata ->
  Obj.wf metadata ->
  listInstalledPlugins this w
  = (Returned (map (fun entry => (fst entry, versionOfSource (snd entry)))
                   metadata), w).
Proof.
  intros Hread Hwf. unfold listInstalledPlugins, installedPluginsOf.
  rewrite Hread. simpl. unfold Underscore.object.
  rewrite object_wf; [reflexivity|].
  simpl. unfold Obj.keys. rewrite map_map. exact Hwf.
Qed.
End ResolverFacts.

Lemma targetForPlugin_fails_only_on_sha_urls_witness :
  Error tarballUrlMessage = Error tarballUrlMessage
  /\ truthy ("https://example.com/downloads/" +++ Fixture.sha) = true.
Proof.
  destruct (@targetForPlugin_fails_only_on_sha_urls Fixture.externals
              Fixture.project "plugin"
              ("https://example.com/downloads/" +++ Fixture.sha)
              (Error tarballUrlMessage)) as (He & Ht & _).
  - vm_compute. reflexivity.
  - split; [exact He | exact Ht].
Defined.

Lemma registry_target_reads_back_witness :
  targetForPlugin Fixture.project "cordova-plugin-camera" "2.4.1"
  = Returned ("cordova-plugin-camera" +++ "@" +++ "2.4.1")
  /\ versionOfSource (registry ("cordova-plugin-camera" +++ "@" +++ "2.4.1"))
     = Some "2.4.1".
Proof.
  apply (@registry_target_reads_back Fixture.externals Fixture.project
           "cordova-plugin-camera" "2.4.1"); vm_compute; reflexivity.
Defined.

Lemma scoped_id_reads_back_wrong_witness :
  versionOfSource (registry ("@" +++ "acme/cordova-plugin-push" +++ "@"
                               +++ "1.0.0"))
  = Some "acme/cordova-plugin-push".
Proof.
  apply (@scoped_id_reads_back_wrong "acme/cordova-plugin-push" "1.0.0").
  - vm_compute. reflexivity.
  - discriminate.
Defined.

Lemma listInstalledPlugins_lists_metadata_witness :
  let w := Fixture.start
             (Fixture.Build []
                [("camera", registry "camera@1.0.0");
                 ("updater", git "https://github.com/meteor/updater.git" "v2");
                 ("viewer", local "/plugins/viewer");
                 ("broken", registry "broken")] []) in
  listInstalledPlugins Fixture.project w
  = (Returned [("camera", Some "1.0.0");
               ("updater", Some "https://github.com/meteor/updater.git#v2");
               ("viewer", Some "/plugins/viewer");
               ("broken", None)], w).
Proof.
  intros w.
  apply (@listInstalledPlugins_lists_metadata Fixture.externals
           Fixture.project w
           [("camera", registry "camera@1.0.0");
            ("updater", git "https://github.com/meteor/updater.git" "v2");
            ("viewer", local "/plugins/viewer");
            ("broken", registry "broken")]).
  - reflexivity.
  - repeat constructor; simpl; intuition discriminate.
Defined.

(** * Plugins from a local path *)

(** ** The algebra of paths *)

Definition sepFree (s : string) : bool :=
  allChars (fun c => negb (Ascii.eqb c "/")) s.

Definition clean (s : string) : bool :=
  sepFree s && negb (String.eqb s "") && negb (String.eqb s ".")
  && negb (String.eqb s "..").

Lemma split_from_cat (sep : ascii) : forall a cur b,
  split_from sep cur (a +++ String sep b)
  = split_from sep cur a ++ split_from sep "" b.
Proof.
  induction a as [|c a IH]; intros cur b; simpl.
  - now rewrite Ascii.eqb_refl.
  - destruct (Ascii.eqb c sep); simpl; now rewrite IH.
Qed.

Lemma split_from_sepFree : forall s cur,
  sepFree cur = true ->
  Forall (fun x => sepFree x = true) (split_from "/" cur s).
Proof.
  induction s as [|c s IH]; intros cur Hcur; simpl.
  - now constructor.
  - destruct (Ascii.eqb c "/") eqn:Hc.
    + constructor; [assumption | now apply IH].
    + apply IH. unfold sepFree. rewrite allChars_app. simpl.
      unfold sepFree in Hcur. now rewrite Hcur, Hc.
Qed.

Lemma split_concat : forall l,
  Forall (fun x => sepFree x = true) l -> l <> [] ->
  split "/" (String.concat "/" l) = l.
Proof.
  induction l as [|x l IH]; intros Hl Hne; [congruence|].
  inversion Hl as [|? ? Hx Hl']; subst.
  destruct l as [|y l].
  - simpl. unfold split. now rewrite split_from_plain.
  - change (String.concat "/" (x :: y :: l))
      with (x +++ String "/" (String.concat "/" (y :: l))).
    unfold split. rewrite split_from_app by exact Hx. simpl append.
    f_equal. apply IH; [assumption | discriminate].
Qed.

Lemma normalizeOnto_clean : forall l st,
  Forall (fun x => clean x = true) l ->
  Posix.normalizeOnto st l = rev st ++ l.
Proof.
  induction l as [|s l IH]; intros st Hl; simpl.
  - now rewrite app_nil_r.
  - inversion Hl as [|? ? Hs Hl']; subst.
    unfold clean in Hs. apply andb_prop in Hs. destruct Hs as [Hs Hdd].
    apply andb_prop in Hs. destruct Hs as [Hs Hd].
    apply andb_prop in Hs. destruct Hs as [_ He].
    apply negb_true_iff in He, Hd, Hdd. rewrite He, Hd, Hdd. simpl.
    rewrite IH by assumption. simpl. now rewrite <- app_assoc.
Qed.

Lemma normalizeOnto_app : forall l1 st l2,
  Posix.normalizeOnto st (l1 ++ l2)
  = Posix.normalizeOnto (rev (Posix.normalizeOnto st l1)) l2.
Proof.
  induction l1 as [|s l1 IH]; intros st l2; simpl.
  - now rewrite rev_involutive.
  - destruct (String.eqb s "" || String.eqb s "."); [apply IH|].
    destruct (String.eqb s ".."); apply IH.
Qed.

Lemma normalizeOnto_keeps : forall l st,
  Forall (fun x => clean x = true) st ->
  Forall (fun x => sepFree x = true) l ->
  Forall (fun x => clean x = true) (Posix.normalizeOnto st l).
Proof.
  induction l as [|s l IH]; intros st Hst Hl; simpl.
  - now apply Forall_rev.
  - inversion Hl as [|? ? Hs Hl']; subst.
    destruct (String.eqb s "") eqn:He; simpl; [now apply IH|].
    destruct (String.eqb s ".") eqn:Hd; simpl; [now apply IH|].
    destruct (String.eqb s "..") eqn:Hdd.
    + apply IH; [|assumption]. destruct st; [constructor|].
      now inversion Hst.
    + apply IH; [|assumption]. constructor; [|assumption].
      unfold clean. now rewrite Hs, He, Hd, Hdd.
Qed.

Lemma normalizeOnto_up : forall n st l,
  Posix.normalizeOnto st (repeat ".." n ++ l)
  = Posix.normalizeOnto (skipn n st) l.
Proof.
  induction n as [|n IH]; intros st l; simpl; [reflexivity|].
  rewrite IH. destruct st; simpl; [now rewrite skipn_nil | reflexivity].
Qed.

Lemma segments_clean (p : string) :
  Forall (fun x => clean x = true) (Posix.segments p).
Proof.
  apply normalizeOnto_keeps; [constructor|].
  now apply split_from_sepFree.
Qed.

Lemma clean_sepFree l :
  Forall (fun x => clean x = true) l -> Forall (fun x => sepFree x = true) l.
Proof.
  apply Forall_impl. intros s Hs. unfold clean in Hs.
  now destruct (sepFree s).
Qed.

Lemma segments_absolute (l : list string) :
  Forall (fun x => clean x = true) l ->
  Posix.segments (Posix.absolute l) = l.
Proof.
  intros Hl. unfold Posix.segments, Posix.absolute, split. simpl.
  destruct l as [|x l]; [reflexivity|].
  fold (split "/" (String.concat "/" (x :: l))).
  rewrite split_concat; [|now apply clean_sepFree | discriminate].
  now rewrite normalizeOnto_clean.
Qed.

Lemma relativeSegments_spec : forall from to,
  exists common up rest,
    from = common ++ up /\ to = common ++ rest
    /\ Posix.relativeSegments from to
       = repeat ".." (List.length up) ++ rest.
Proof.
  assert (Hups : forall l : list string,
            map (fun _ => "..") l = repeat ".." (List.length l)).
  { induction l as [|x l IH]; simpl; [reflexivity | now rewrite IH]. }
  induction from as [|f from IH]; intros to.
  - exists [], [], to. now destruct to.
  - destruct to as [|t to].
    + exists [], (f :: from), []. simpl. now rewrite Hups.
    + simpl. destruct (String.eqb_spec f t) as [->|Hne].
      * destruct (IH to) as (common & up & rest & -> & -> & ->).
        now exists (t :: common), up, rest.
      * exists [], (f :: from), (t :: to). simpl. now rewrite Hups.
Qed.

Lemma relative_not_absolute (l : list string) :
  Forall (fun x => sepFree x = true /\ x <> "") l ->
  Posix.isAbsolute (String.concat "/" l) = false.
Proof.
  intros Hl. destruct l as [|x l]; [reflexivity|].
  inversion Hl as [|? ? [Hx Hne] _]; subst.
  destruct x as [|c x]; [congruence|].
  simpl in Hx. apply andb_prop in Hx. destruct Hx as [Hc _].
  apply negb_true_iff in Hc. now destruct l.
Qed.

(** From [from], the path [relative from to] leads to [to]. *)
Lemma resolve_relative (from : string) (to : list string) :
  Forall (fun x => clean x = true) to ->
  Posix.resolve from (Posix.relative from (Posix.absolute to))
  = Posix.absolute to.
Proof.
  intros Hto. unfold Posix.relative. rewrite segments_absolute by assumption.
  pose proof (segments_clean from) as Hfrom.
  destruct (relativeSegments_spec (Posix.segments from) to)
    as (common & up & rest & Hf & Ht & ->).
  assert (Hrest : Forall (fun x => clean x = true) rest).
  { rewrite Ht in Hto. apply Forall_app in Hto. tauto. }
  assert (Hsteps : Forall (fun x => sepFree x = true)
                          (repeat ".." (List.length up) ++ rest)).
  { apply Forall_app. split; [|now apply clean_sepFree].
    apply Forall_forall. intros x Hx. apply repeat_spec in Hx. now subst. }
  unfold Posix.resolve. rewrite relative_not_absolute.
  2: { apply Forall_app. split.
       - apply Forall_forall. intros x Hx. apply repeat_spec in Hx.
         subst. split; [reflexivity | discriminate].
       - revert Hrest. apply Forall_impl. intros s Hs. unfold clean in Hs.
         destruct (sepFree s); [|discriminate]. split; [reflexivity|].
         intros ->. discriminate. }
  f_equal. unfold Posix.segments, split.
  change (from +++ "/" +++ ?t) with (from +++ String "/" t).
  rewrite split_from_cat, normalizeOnto_app.
  fold (split "/" from). fold (Posix.segments from). rewrite Hf.
  destruct (repeat ".." (List.length up) ++ rest) as [|s steps] eqn:Hs.
  - apply app_eq_nil in Hs. destruct Hs as [Hup ->].
    destruct up; [|discriminate]. simpl.
    now rewrite rev_involutive, Ht.
  - rewrite <- Hs in *. fold (split "/" (String.concat "/" (repeat ".." (List.length up) ++ rest))).
    rewrite split_concat; [|assumption | rewrite Hs; discriminate].
    rewrite normalizeOnto_up, rev_app_distr.
    rewrite skipn_app, skipn_all2 by (rewrite length_rev; lia).
    rewrite length_rev, Nat.sub_diag. simpl.
    rewrite normalizeOnto_clean by assumption.
    now rewrite rev_involutive, Ht.
Qed.

Lemma resolve_absolute (from to : string) :
  exists l, Forall (fun x => clean x = true) l
            /\ Posix.resolve from to = Posix.absolute l.
Proof.
  unfold Posix.resolve. destruct (Posix.isAbsolute to);
    eexists; (split; [apply segments_clean | reflexivity]).
Qed.

Section LocalPluginFacts.
Context `{Externals}.
Variable this : CordovaProject.

(** X4.  On a POSIX system, where [path.resolve] and [path.relative] are
    those of [Posix] and [convertToOSPath] changes nothing, the target of
    a plugin given as [file://<path>] names the plugin for the toolchain,
    which runs in the root of the build project: for a relative path,
    the target resolved from that root is the directory the path names
    from the application directory; an absolute path is its own target. *)
Theorem targetForPlugin_local_path (name path : string) :
  (forall from to, path_resolve from to = Posix.resolve from to) ->
  (forall from to, path_relative from to = Posix.relative from to) ->
  (forall p, convertToOSPath p = p) ->
  isUrlWithSha ("file://" +++ path) = false ->
  isUrlWithFileScheme ("file://" +++ path) = true ->
  exists target,
    targetForPlugin this name ("file://" +++ path) = Returned target
    /\ if isPathRelative path
       then Posix.resolve (projectRoot this) target
            = Posix.resolve (projectDir this) path
       else target = path.
Proof.
  intros Hresolve Hrelative Hos Hsha Hfile. unfold targetForPlugin.
  rewrite Hsha, Hfile.
  change (truthy ("file://" +++ path)) with true. simpl negb. cbv iota.
  unfold resolveCordovaLocalPluginPath.
  rewrite (substr_app "file://" path), Hos.
  eexists. split; [reflexivity|].
  destruct (isPathRelative path); [|reflexivity].
  rewrite Hresolve, Hrelative.
  destruct (resolve_absolute (projectDir this) path) as (l & Hl & ->).
  now apply resolve_relative.
Qed.
End LocalPluginFacts.

Lemma targetForPlugin_local_path_witness :
  exists target,
    targetForPlugin Fixture.project "viewer" ("file://" +++ "plugins/viewer")
    = Returned target
    /\ Posix.resolve "/home/app/.meteor/local/cordova-build" target
       = Posix.resolve "/home/app" "plugins/viewer".
Proof.
  apply (@targetForPlugin_local_path Fixture.externals Fixture.project
           "viewer" "plugins/viewer"); reflexivity.
Defined.

(** The targets of a plugin beside the application, of one inside it and
    of one given by an absolute path. *)
Example targetForPlugin_local_paths :
  targetForPlugin Fixture.project "viewer" "file://plugins/viewer"
  = Returned "../../../plugins/viewer"
  /\ targetForPlugin Fixture.project "scanner" "file://../shared/./scanner/"
     = Returned "../../../../shared/scanner"
  /\ targetForPlugin Fixture.project "camera" "file:///opt/plugins/camera"
     = Returned "/opt/plugins/camera".
Proof. vm_compute. repeat split; reflexivity. Qed.

(** * Further properties of the command execution context *)

Section ContextFacts.
Context `{Externals}.
Variable this : CordovaProject.

(** X8.  [runCommands] restores nothing but the working directory: the
    disk, the environment given to the toolchain and the verbosity are
    those the action left, and the output is that of the action, followed
    by the two error lines when the action failed with a [CordovaError]. *)
Theorem runCommands_frame {A} (asyncFunc : M A) env dir (w : world) :
  let inner := asyncFunc (entered this env dir w) in
  let after := snd (runCommands this asyncFunc env dir w) in
  disk (proc after) = disk (proc (snd inner))
  /\ spawnEnv (proc after) = spawnEnv (proc (snd inner))
  /\ consoleVerbose after = consoleVerbose (snd inner)
  /\ out after
     = out (snd inner)
       ++ match fst inner with
          | Threw (CordovaError m) =>
              [ConsoleError ("cordova: " +++ m);
               ConsoleError
                 "Try running again with the --verbose option to help diagnose the issue."]
          | _ => []
          end.
Proof.
  intros inner after. subst inner after. rewrite runCommands_spec.
  destruct (asyncFunc _) as [[a|e] w']; unfold restored; simpl.
  - destruct (truthy (cwd (proc w))); simpl; now rewrite app_nil_r.
  - destruct (truthy (cwd (proc w))), e; simpl; now rewrite ?app_nil_r.
Qed.

(** X9.  A [runCommands] inside another one: the outer one ends as the
    inner one does and prints nothing more; an error the inner one has
    turned into [ExitWithCode(1)] is not reported twice. *)
Theorem runCommands_nested {A} (f : M A) env1 dir1 env2 dir2 (w : world) :
  let inner := runCommands this f env1 dir1 (entered this env2 dir2 w) in
  let outer :=
    runCommands this (runCommands this f env1 dir1) env2 dir2 w in
  fst outer = fst inner /\ out (snd outer) = out (snd inner).
Proof.
  intros inner outer. subst inner outer.
  rewrite (runCommands_spec this (runCommands this f env1 dir1)).
  rewrite (runCommands_spec this f).
  destruct (f _) as [[a|e] w']; unfold restored; simpl.
  - destruct (truthy (cwd (proc (entered this env2 dir2 w))));
      destruct (truthy (cwd (proc w))); simpl; auto.
  - destruct (truthy (cwd (proc (entered this env2 dir2 w))));
      destruct (truthy (cwd (proc w))); destruct e; simpl;
      rewrite ?app_nil_r; auto.
Qed.

(** X10.  [removePlugins] asks the toolchain for one remove that names all
    the plugins at once, whether it succeeds or not, and for nothing when
    the list is empty. *)
Theorem removePlugins_one_call (pluginsToRemove : list string) (w : world) :
  calls (out (snd (removePlugins this pluginsToRemove w)))
  = calls (out w)
    ++ match pluginsToRemove with
       | [] => []
       | _ => [plugin_rm pluginsToRemove
                 (Options (negb (consoleVerbose w)) (consoleVerbose w))]
       end.
Proof.
  unfold removePlugins. unfold bind at 1. unfold emit. simpl.
  destruct pluginsToRemove as [|x l]; simpl.
  - unfold ret. simpl. rewrite calls_app. reflexivity.
  - rewrite (runCommands_raw this (plugin_rm (x :: l))). simpl.
    match goal with
    | |- context [restored ?old (World ?p ?v ?o)] =>
        destruct (@restored_shape _ unit (Returned tt) old p v o) as [p' Hp']
    end.
    injection Hp' as ->. simpl. rewrite !calls_app. simpl.
    rewrite <- app_assoc. f_equal. simpl.
    match goal with
    | |- context [fst ?r] => destruct (fst r) as [e|]
    end; [destruct e|]; reflexivity.
Qed.
End ContextFacts.

(** * Further properties of the platform reconciler *)

Section PlatformFacts.
Context `{Externals}.
Variable this : CordovaProject.

Lemma forEach_ext {X} (f g : X -> M unit) (l : list X) :
  (forall x, In x l -> f x = g x) -> forEach l f = forEach l g.
Proof.
  induction l as [|x l IH]; intros Hfg; simpl; [reflexivity|].
  rewrite (Hfg x (or_introl eq_refl)), IH; [reflexivity|].
  intros y Hy. apply Hfg. now right.
Qed.

Lemma forEach_skip {X} (l : list X) (w : world) :
  forEach l (fun _ => ret tt) w = (Returned tt, w).
Proof. induction l as [|x l IH]; simpl; [reflexivity | exact IH]. Qed.

(** X11.  When every desired platform is installed and every installed
    platform is desired or not one of [AVAILABLE_PLATFORMS], platform
    reconciliation returns and leaves the world as it is. *)
Theorem ensurePlatformsAreSynchronized_in_sync (platforms : list string)
    (w : world) :
  let installed :=
    cordova_util_listPlatforms (disk (proc w))
                               (convertToOSPath (projectRoot this)) in
  (forall p, In p platforms -> In p installed) ->
  (forall p, In p installed ->
             In p platforms \/ ~ In p AVAILABLE_PLATFORMS) ->
  ensurePlatformsAreSynchronized this (Given platforms) w = (Returned tt, w).
Proof.
  intros installed Hadd Hrm.
  unfold ensurePlatformsAreSynchronized. unfold bind at 1.
  unfold listInstalledPlatforms. fold installed.
  rewrite (@forEach_ext string _ (fun _ => ret tt) platforms).
  - unfold bind. rewrite forEach_skip.
    rewrite (@forEach_ext string _ (fun _ => ret tt) installed).
    + apply forEach_skip.
    + intros p Hp. destruct (Hrm p Hp) as [Hin|Hout].
      * apply contains_In in Hin. now rewrite Hin.
      * apply contains_not_In in Hout. rewrite Hout.
        now rewrite andb_false_r.
  - intros p Hp. apply Hadd, contains_In in Hp. now rewrite Hp.
Qed.

(** A loop that gives the toolchain one command for each element that
    satisfies [c]: it stops at the first command that fails. *)
Lemma forEach_commands (mk : string -> options -> command)
      (c : string -> bool) :
  forall (l : list string) (w : world) (r : outcome unit) (w' : world),
    forEach l (fun x =>
      if c x then
        runCommands this (o <- defaultOptions ;; raw (mk x o))
                    Undefined Undefined
      else ret tt) w = (r, w') ->
    let o := Options (negb (consoleVerbose w)) (consoleVerbose w) in
    exists p' evs done rest,
      w' = World p' (consoleVerbose w) (out w ++ evs)
      /\ map (fun x => mk x o) (filter c l) = done ++ rest
      /\ completedCalls evs = done
      /\ calls evs = done ++ firstn 1 rest
      /\ (r = Returned tt <-> rest = []).
Proof.
  induction l as [|x l IH]; intros w r w' Hrun o.
  - simpl in Hrun. unfold ret in Hrun. injection Hrun as <- <-.
    exists (proc w), [], [], []. simpl. rewrite app_nil_r.
    destruct w; simpl. repeat split; auto.
  - simpl forEach in Hrun. unfold bind at 1 in Hrun. simpl filter.
    destruct (c x) eqn:Hc.
    + rewrite (runCommands_raw this (mk x)) in Hrun. fold o in Hrun.
      set (r0 := cordova_raw (mk x o) _) in Hrun.
      destruct (fst r0) as [e|] eqn:Hr.
      * match type of Hrun with
        | context [restored ?old (World ?p ?v ?ev)] =>
            destruct (@restored_shape _ unit (Threw (escalated e)) old p v ev)
              as [p' Hp']
        end.
        injection Hp' as Hp'. rewrite Hp' in Hrun.
        injection Hrun as <- <-.
        exists p', (Call (mk x o) (Some e) :: complaint e), [],
               (mk x o :: map (fun y => mk y o) (filter c l)).
        split; [reflexivity|]. split; [reflexivity|].
        split; [now destruct e|]. split; [now destruct e|].
        split; intros Hx; discriminate Hx.
      * match type of Hrun with
        | context [restored ?old (World ?p ?v ?ev)] =>
            destruct (@restored_shape _ unit (Returned tt) old p v ev)
              as [p' Hp']
        end.
        injection Hp' as Hp'. rewrite Hp' in Hrun.
        destruct (IH _ _ _ Hrun)
          as (p2 & evs & done & rest & Hw & Hplan & Hdone & Hcalls & Hret).
        simpl in Hw, Hplan, Hret. fold o in Hw, Hplan, Hret.
        exists p2, (Call (mk x o) None :: evs), (mk x o :: done), rest.
        simpl. split; [rewrite Hw; now rewrite <- app_assoc|].
        split; [now rewrite Hplan|]. split; [now rewrite Hdone|].
        split; [now rewrite Hcalls | exact Hret].
    + unfold ret at 1 in Hrun.
      destruct (IH _ _ _ Hrun) as (p2 & evs & done & rest & Hrest).
      exists p2, evs, done, rest. exact Hrest.
Qed.

(** X12.  Whatever the toolchain does, platform reconciliation gives it
    the adds and then the removes in order and stops at the first one that
    fails: the commands that completed are a beginning of that plan, the
    only other command issued is the one that failed, and the method
    returns exactly when the whole plan completed. *)
Theorem ensurePlatformsAreSynchronized_stops_at_failure
    (platforms : list string) (w : world) :
  let installed :=
    cordova_util_listPlatforms (disk (proc w))
                               (convertToOSPath (projectRoot this)) in
  let o := Options (negb (consoleVerbose w)) (consoleVerbose w) in
  let plan :=
    map (fun x => platform_add x o) (missingPlatforms platforms installed)
    ++ map (fun x => platform_rm x o) (stalePlatforms platforms installed) in
  let run := ensurePlatformsAreSynchronized this (Given platforms) w in
  exists evs done rest,
    out (snd run) = out w ++ evs
    /\ plan = done ++ rest
    /\ completedCalls evs = done
    /\ calls evs = done ++ firstn 1 rest
    /\ (fst run = Returned tt <-> rest = []).
Proof.
  intros installed o plan run.
  assert (Hrun : run =
    match forEach platforms (fun x =>
            if negb (Underscore.contains installed x) then
              runCommands this (o <- defaultOptions ;; raw (platform_add x o))
                          Undefined Undefined
            else ret tt) w with
    | (Returned _, w1) =>
        forEach installed (fun x =>
          if negb (Underscore.contains platforms x)
             && Underscore.contains AVAILABLE_PLATFORMS x
          then runCommands this (o <- defaultOptions ;; raw (platform_rm x o))
                           Undefined Undefined
          else ret tt) w1
    | (Threw e, w1) => (Threw e, w1)
    end).
  { subst run. unfold ensurePlatformsAreSynchronized. unfold bind at 1.
    unfold listInstalledPlatforms. fold installed.
    rewrite (@forEach_ext string _
      (fun x => if negb (Underscore.contains installed x) then
                  runCommands this
                    (o <- defaultOptions ;; raw (platform_add x o))
                    Undefined Undefined
                else ret tt) platforms)
      by (intros x _; now destruct (Underscore.contains installed x)).
    reflexivity. }
  rewrite Hrun. clear Hrun run. subst plan.
  destruct (forEach platforms _ w) as [r1 w1] eqn:Hloop1.
  destruct (forEach_commands platform_add _ _ _ Hloop1)
    as (p1 & evs1 & done1 & rest1 & Hw1 & Hplan1 & Hdone1 & Hcalls1 & Hret1).
  fold o in Hplan1. subst w1.
  destruct r1 as [[]|e1].
  - assert (Hrest1 : rest1 = []) by now apply Hret1.
    subst rest1. rewrite app_nil_r in Hplan1, Hcalls1.
    destruct (forEach installed _ _) as [r2 w2] eqn:Hloop2.
    destruct (forEach_commands platform_rm _ _ _ Hloop2)
      as (p2 & evs2 & done2 & rest2 & Hw2 & Hplan2 & Hdone2 & Hcalls2 & Hret2).
    simpl in Hw2, Hplan2. fold o in Hplan2. subst w2.
    exists (evs1 ++ evs2), (done1 ++ done2), rest2.
    split; [simpl; now rewrite app_assoc|].
    split.
    { unfold missingPlatforms, stalePlatforms.
      rewrite Hplan1, Hplan2. now rewrite app_assoc. }
    split; [now rewrite completedCalls_app, Hdone1, Hdone2|].
    split; [rewrite calls_app, Hcalls1, Hcalls2; now rewrite app_assoc|].
    exact Hret2.
  - exists evs1, done1,
      (rest1 ++ map (fun x => platform_rm x o)
                    (stalePlatforms platforms installed)).
    assert (Hrest1 : rest1 <> []).
    { intros Hnil. apply Hret1 in Hnil. discriminate. }
    split; [reflexivity|]. split.
    { unfold missingPlatforms. rewrite Hplan1. now rewrite app_assoc. }
    split; [exact Hdone1|]. split.
    { rewrite Hcalls1. destruct rest1; [now elim Hrest1 | reflexivity]. }
    split; [intros Hx; discriminate Hx|].
    destruct rest1; [now elim Hrest1 | discriminate].
Qed.

(** [null] in place of the platforms is not replaced by the platforms of
    the application: the first loop throws over it, before any command. *)
Remark ensurePlatformsAreSynchronized_null (w : world) :
  ensurePlatformsAreSynchronized this Null w = (Threw TypeError, w).
Proof. reflexivity. Qed.
End PlatformFacts.

Lemma ensurePlatformsAreSynchronized_in_sync_witness :
  let w := Fixture.start (Fixture.Build ["android"; "ios"; "tizen"] [] []) in
  ensurePlatformsAreSynchronized Fixture.project (Given ["ios"; "android"]) w
  = (Returned tt, w).
Proof.
  intros w.
  apply (@ensurePlatformsAreSynchronized_in_sync Fixture.externals
           Fixture.project ["ios"; "android"] w).
  - simpl. intuition.
  - simpl. intros p [<-|[<-|[<-|[]]]]; [tauto | tauto |].
    right. intros [E|[E|[E|[]]]]; discriminate E.
Defined.

(** A toolchain that cannot add [ios]: the add is issued, fails, and the
    stale platform is not removed. *)
Example ensurePlatformsAreSynchronized_aborts :
  let run :=
    @ensurePlatformsAreSynchronized (Fixture.externalsFailingOn ["ios"])
      Fixture.project (Given ["ios"; "android"])
      (@World (Fixture.externalsFailingOn ["ios"])
              (Process "/home/app" [] (Fixture.Build ["web"] [] [])) false []) in
  fst run = Threw (ExitWithCode 1)
  /\ calls (out (snd run)) = [platform_add "ios" (Options true false)].
Proof. vm_compute. split; reflexivity. Qed.

(** * Further properties of the plugin reconciler *)

Section PluginFacts.
Context `{Externals}.
Variable this : CordovaProject.

Lemma normalizedVersion_error (version : string) (e : exn) :
  normalizedVersion version = Threw e -> e = Error tarballUrlMessage.
Proof.
  unfold normalizedVersion, convertToGitUrl.
  destruct (isUrlWithSha version); [|discriminate].
  destruct (re_match tarballUrlPattern version); [discriminate|].
  destruct (re_test dotGitPattern version); [discriminate|].
  now intros [= <-].
Qed.

Lemma firstLoop_throws (installed : Obj.t (option string))
      (name version : string) (e : exn) :
  isUrlWithFileScheme version = false ->
  normalizedVersion version = Threw e ->
  forall (plugins : Obj.t string) vars,
    In (name, version) plugins ->
    ofold (checkDesiredPlugin installed) plugins vars
    = Threw (Error tarballUrlMessage).
Proof.
  intros Hlocal Hbad.
  induction plugins as [|[n v] plugins IH]; intros [should fromLocal] Hin;
    [contradiction|].
  simpl.
  destruct (isUrlWithFileScheme v) eqn:Hv.
  - simpl. apply IH. destruct Hin as [[= -> ->]|Hin]; [congruence | exact Hin].
  - destruct (normalizedVersion v) as [v'|e'] eqn:Hn; simpl.
    + destruct Hin as [[= -> ->]|Hin]; [congruence|].
      destruct (negb (Obj.has installed n)
                || strict_neq (prop installed n) v'); now apply IH.
    + now rewrite (normalizedVersion_error _ Hn).
Qed.

(** X13.  A desired plugin, not from a local path, whose version is
    rejected as a tarball URL makes plugin reconciliation throw that error
    before it does anything: nothing is printed, removed or installed. *)
Theorem ensurePluginsAreSynchronized_rejects_first (plugins : Obj.t string)
    (cfg : jsarg (Obj.t string)) (installed : Obj.t (option string))
    (name version : string) (e : exn) (w : world) :
  installedPluginsOf this w = Returned installed ->
  In (name, version) plugins ->
  isUrlWithFileScheme version = false ->
  normalizedVersion version = Threw e ->
  ensurePluginsAreSynchronized this plugins cfg w
  = (Threw (Error tarballUrlMessage), w).
Proof.
  intros Hw Hin Hlocal Hbad.
  rewrite ensurePluginsAreSynchronized_perform, Hw.
  unfold reconcile.
  now rewrite (@firstLoop_throws installed name version e Hlocal Hbad
                 plugins (false, []) Hin).
Qed.

(** X14.  When the desired map holds no plugin from a local path, every
    desired plugin is installed at its normalized version and nothing else
    is installed, plugin reconciliation returns and leaves the world as it
    is. *)
Theorem ensurePluginsAreSynchronized_in_sync (plugins : Obj.t string)
    (cfg : jsarg (Obj.t string)) (installed : Obj.t (option string))
    (w : world) :
  installedPluginsOf this w = Returned installed ->
  noLocalPath plugins ->
  upToDate plugins installed ->
  (forall name, In name (Obj.keys installed) -> In name (Obj.keys plugins)) ->
  ensurePluginsAreSynchronized this plugins cfg w = (Returned tt, w).
Proof.
  intros Hw Hno Hup Hsub.
  rewrite ensurePluginsAreSynchronized_perform, Hw.
  now rewrite (reconcile_quiet Hno Hup Hsub).
Qed.

Lemma secondLoop_stale (plugins : Obj.t string) (name : string) :
  ~ In name (Obj.keys plugins) ->
  forall (installed : Obj.t (option string)) (should : bool),
    In name (Obj.keys installed) ->
    checkInstalledPlugins plugins installed should = true.
Proof.
  intros Hstale. unfold checkInstalledPlugins.
  induction installed as [|[n v] installed IH]; intros should Hin;
    [contradiction|].
  simpl in *. destruct Hin as [->|Hin].
  - assert (Hhas : Obj.has plugins name = false).
    { destruct (Obj.has plugins name) eqn:E; [|reflexivity].
      apply has_In in E. contradiction. }
    rewrite Hhas. simpl. apply (secondLoop_true plugins installed).
  - now apply IH.
Qed.

(** X15.  An installed plugin that is not desired any more makes
    everything be reinstalled, also when every desired plugin is up to
    date: all the installed plugins are removed and all the desired ones
    installed. *)
Theorem reconcile_stale_plugin (plugins : Obj.t string)
    (installed : Obj.t (option string)) (name : string) :
  normalizes plugins ->
  In name (Obj.keys installed) ->
  ~ In name (Obj.keys plugins) ->
  exists d,
    reconcile plugins installed = Returned d
    /\ reinstallAll d = true
    /\ toRemove d = Obj.keys installed
    /\ toInstall d = plugins.
Proof.
  intros Hnorm Hin Hstale. unfold reconcile.
  rewrite firstLoop_spec by assumption. simpl.
  rewrite (@secondLoop_stale plugins name Hstale installed _ Hin). simpl.
  eexists. repeat split.
Qed.

Lemma forEachCounting_ext {X} (f g : nat -> X -> M nat) (l : list X) :
  (forall n x w, f n x w = g n x w) ->
  forall n w, forEachCounting l n f w = forEachCounting l n g w.
Proof.
  intros Hfg. induction l as [|x l IH]; intros n w; simpl; [reflexivity|].
  unfold bind. rewrite Hfg.
  destruct (g n x w) as [[n'|e] w']; [apply IH | reflexivity].
Qed.

Lemma bind_ext {A B} (m : M A) (k k' : A -> M B) (w : world) :
  (forall a w', k a w' = k' a w') -> bind m k w = bind m k' w.
Proof.
  intros Hk. unfold bind. destruct (m w) as [[a|e] w']; [apply Hk | reflexivity].
Qed.

Lemma configurationGiven_object (cfg : jsarg (Obj.t string)) :
  cfg <> Null -> exists c, configurationGiven cfg = Some c.
Proof. destruct cfg; simpl; [eauto | congruence | eauto]. Qed.

(** X18.  The configuration of the plugins is looked up and never used:
    plugin reconciliation does the same for any two configurations that
    are not [null], a missing one among them. *)
Theorem ensurePluginsAreSynchronized_ignores_configuration
    (plugins : Obj.t string) (cfg cfg' : jsarg (Obj.t string)) (w : world) :
  cfg <> Null -> cfg' <> Null ->
  ensurePluginsAreSynchronized this plugins cfg w
  = ensurePluginsAreSynchronized this plugins cfg' w.
Proof.
  intros Hcfg Hcfg'.
  destruct (configurationGiven_object Hcfg) as [c Hc].
  destruct (configurationGiven_object Hcfg') as [c' Hc'].
  assert (Hbatch : forall l w0,
    installPlugins this l (Some c) w0 = installPlugins this l (Some c') w0).
  { intros l w0. unfold installPlugins.
    apply bind_ext. intros _ w1.
    apply forEachCounting_ext. intros n [name version] w2. reflexivity. }
  rewrite !ensurePluginsAreSynchronized_perform.
  destruct (installedPluginsOf this w) as [installed|e]; [|reflexivity].
  destruct (reconcile plugins installed) as [d|e]; [|reflexivity].
  unfold perform. apply bind_ext. intros _ w1.
  destruct (reinstallAll d || negb (Obj.isEmpty (fromLocalPath d)));
    [|reflexivity].
  unfold enterJob. apply bind_ext. intros _ w2.
  apply bind_ext. intros _ w3. rewrite Hc, Hc'. apply Hbatch.
Qed.
End PluginFacts.

(** Two more test doubles: a toolchain that carries out every command
    without a trace on the disk, and one that refuses every command. *)
Module Doubles.
Definition withToolchain
    (toolchain : command -> process Fixture.build
                 -> option exn * process Fixture.build) : Externals :=
  Build_Externals
    Fixture.urlWithSha Fixture.fileScheme Fixture.pathRelative
    (fun p => p)
    (fun a b => a +++ "/" +++ b)
    "/usr/local/bin"
    (fun paths => [("PATH", String.concat ":" paths)])
    Posix.relative
    Posix.resolve
    Fixture.availablePlatforms
    (fun d _ => Fixture.platformsOnDisk d)
    (fun d _ => Returned (Fixture.fetchJson d))
    toolchain.

Definition obedient : Externals := withToolchain (fun _ p => (None, p)).

Definition refusing : Externals :=
  withToolchain (fun _ p => (Some (CordovaError "refused"), p)).

Definition start (E : Externals) (d : @Disk E) : @world E :=
  @World E (Process "/home/app" [] d) false [].
End Doubles.

Section PluginRuns.
Context `{Externals}.
Variable this : CordovaProject.

(** The target of a desired plugin, when it resolves. *)
Definition resolvedTarget (entry : string * string) : string :=
  match targetForPlugin this (fst entry) (snd entry) with
  | Returned target => target
  | Threw _ => ""
  end.

Definition resolves (plugins : Obj.t string) : Prop :=
  forall entry, In entry plugins ->
    exists target, targetForPlugin this (fst entry) (snd entry)
                   = Returned target.

Lemma removePlugins_completes (l : list string) (w : world) :
  (forall c p, fst (cordova_raw c p) = None) ->
  exists p',
    removePlugins this l w
    = (Returned tt,
       World p' (consoleVerbose w)
             (out w ++ ConsoleDebug "Removing Cordova plugins" l
                    :: match l with
                       | [] => []
                       | _ => [Call (plugin_rm l
                                       (Options (negb (consoleVerbose w))
                                                (consoleVerbose w))) None]
                       end)).
Proof.
  intros Hok. unfold removePlugins. unfold bind at 1. unfold emit. simpl.
  destruct l as [|x l]; simpl.
  - exists (proc w). reflexivity.
  - rewrite (runCommands_raw this (plugin_rm (x :: l))). simpl.
    rewrite Hok. rewrite <- app_assoc. simpl. apply restored_shape.
Qed.

Lemma addPlugin_completes (name version target : string)
      (config : option string) (w : world) :
  (forall c p, fst (cordova_raw c p) = None) ->
  targetForPlugin this name version = Returned target ->
  exists p',
    addPlugin this name version config w
    = (Returned tt,
       World p' (consoleVerbose w)
             (out w ++ [ConsoleDebug "Adding Cordova plugin" [name];
                        Call (plugin_add target
                                (Options (negb (consoleVerbose w))
                                         (consoleVerbose w))) None])).
Proof.
  intros Hok Htarget. rewrite addPlugin_unfold, Htarget. cbv zeta.
  rewrite (runCommands_raw this (plugin_add target)). simpl.
  rewrite Hok. rewrite <- app_assoc. simpl. apply restored_shape.
Qed.

Lemma installLoop_completes (cfg : Obj.t string) (N : nat) (o : options) :
  (forall c p, fst (cordova_raw c p) = None) ->
  forall (l : Obj.t string) (n : nat) (w : world),
    resolves l ->
    o = Options (negb (consoleVerbose w)) (consoleVerbose w) ->
    exists p' evs,
      forEachCounting l n (fun pluginsInstalled entry =>
        let '(name, version) := entry in
        config <- lift (configurationOf (Some cfg) name) ;;
        addPlugin this name version config ;;
        let pluginsInstalled := S pluginsInstalled in
        emit (ReportProgress pluginsInstalled N) ;;
        ret pluginsInstalled) w
      = (Returned tt, World p' (consoleVerbose w) (out w ++ evs))
      /\ calls evs = map (fun entry => plugin_add (resolvedTarget entry) o) l.
Proof.
  intros Hok. unfold configurationOf.
  induction l as [|[name version] l IH]; intros n w Hres Ho.
  - exists (proc w), []. simpl. rewrite app_nil_r. destruct w. now split.
  - simpl forEachCounting.
    change (config <- lift (Returned (Obj.get cfg name)) ;;
            addPlugin this name version config ;;
            emit (ReportProgress (S n) N) ;; ret (S n))
      with (addPlugin this name version (Obj.get cfg name) ;;
            emit (ReportProgress (S n) N) ;; ret (S n)).
    rewrite counting_turn.
    destruct (Hres (name, version) (or_introl eq_refl)) as [target Htarget].
    simpl in Htarget.
    destruct (addPlugin_completes name version (Obj.get cfg name) w
                Hok Htarget) as [p1 ->].
    simpl proc; simpl consoleVerbose; simpl out.
    destruct (IH (S n)
      (World p1 (consoleVerbose w)
             ((out w ++ [ConsoleDebug "Adding Cordova plugin" [name];
                         Call (plugin_add target
                                 (Options (negb (consoleVerbose w))
                                          (consoleVerbose w))) None])
                ++ [ReportProgress (S n) N])))
      as (p2 & evs & Hrun & Hcalls).
    { intros entry Hin. apply Hres. now right. }
    { exact Ho. }
    simpl in Hrun. rewrite Hrun.
    exists p2. eexists. split.
    + rewrite <- !app_assoc. reflexivity.
    + simpl. rewrite Hcalls. unfold resolvedTarget at 2. simpl.
      rewrite Htarget. now subst o.
Qed.

Lemma reconcile_idle (plugins : Obj.t string)
      (installed : Obj.t (option string)) (d : decision) :
  reconcile plugins installed = Returned d ->
  reinstallAll d || negb (Obj.isEmpty (fromLocalPath d)) = false ->
  toRemove d = [] /\ toInstall d = [].
Proof.
  unfold reconcile.
  destruct (ofold _ plugins _) as [[should fromLocal]|e]; simpl;
    [|discriminate].
  destruct (checkInstalledPlugins plugins installed should
            || negb (Obj.isEmpty fromLocal)) eqn:Hgo;
    intros [= <-]; simpl.
  - rewrite Hgo. discriminate.
  - now split.
Qed.

(** X16.  With a configuration that is not [null], a toolchain that
    carries out every command, and targets that resolve, plugin
    reconciliation returns after at most one remove,
    of all the plugins to remove at once, followed by one add for each
    plugin to install, in the order of the map, at its resolved target. *)
Theorem ensurePluginsAreSynchronized_order (plugins : Obj.t string)
    (cfg : jsarg (Obj.t string)) (installed : Obj.t (option string))
    (d : decision) (w : world) :
  cfg <> Null ->
  installedPluginsOf this w = Returned installed ->
  reconcile plugins installed = Returned d ->
  resolves (toInstall d) ->
  (forall c p, fst (cordova_raw c p) = None) ->
  let o := Options (negb (consoleVerbose w)) (consoleVerbose w) in
  exists w',
    ensurePluginsAreSynchronized this plugins cfg w = (Returned tt, w')
    /\ calls (out w')
       = calls (out w)
         ++ match toRemove d with
            | [] => []
            | names => [plugin_rm names o]
            end
         ++ map (fun entry => plugin_add (resolvedTarget entry) o)
                (toInstall d).
Proof.
  intros Hcfg Hw Hd Hres Hok o.
  destruct (configurationGiven_object Hcfg) as [c Hc].
  rewrite ensurePluginsAreSynchronized_perform, Hw, Hd.
  unfold perform. rewrite Hc. unfold bind at 1.
  set (announce := if negb (Obj.isEmpty (fromLocalPath d)) then _ else _).
  assert (Hannounce : exists evs,
    announce w = (Returned tt, World (proc w) (consoleVerbose w) (out w ++ evs))
    /\ calls evs = []).
  { subst announce. destruct (negb (Obj.isEmpty (fromLocalPath d))).
    - eexists. split; [reflexivity | reflexivity].
    - exists []. unfold ret. rewrite app_nil_r. now destruct w. }
  destruct Hannounce as (evs0 & -> & Hcalls0).
  destruct (reinstallAll d || negb (Obj.isEmpty (fromLocalPath d))) eqn:Hgo.
  - unfold enterJob. unfold bind at 1. unfold emit. simpl.
    unfold bind at 1.
    destruct (removePlugins_completes (toRemove d)
      (World (proc w) (consoleVerbose w)
             ((out w ++ evs0) ++ [EnterJob "installing Cordova plugins"]))
      Hok) as [p1 ->].
    simpl consoleVerbose; simpl out.
    unfold installPlugins. unfold bind at 1. unfold emit. simpl.
    destruct (@installLoop_completes c
      (Obj.size (toInstall d)) o Hok (toInstall d) 0
      (World p1 (consoleVerbose w)
         ((((out w ++ evs0) ++ [EnterJob "installing Cordova plugins"])
             ++ ConsoleDebug "Removing Cordova plugins" (toRemove d)
                :: match toRemove d with
                   | [] => []
                   | _ => [Call (plugin_rm (toRemove d) o) None]
                   end)
            ++ [ReportProgress 0 (Obj.size (toInstall d))]))
      Hres eq_refl) as (p2 & evs & Hrun & Hcalls).
    simpl in Hrun.
    eexists. split; [exact Hrun|].
    simpl. rewrite !calls_app, Hcalls0, Hcalls. simpl.
    rewrite app_nil_r. rewrite <- !app_assoc. f_equal.
    destruct (toRemove d); reflexivity.
  - destruct (reconcile_idle _ _ Hd Hgo) as [-> ->].
    eexists. split; [reflexivity|].
    simpl. now rewrite calls_app, Hcalls0, !app_nil_r.
Qed.

Lemma removePlugins_fails (x : string) (l : list string) (e : exn)
      (w : world) :
  let o := Options (negb (consoleVerbose w)) (consoleVerbose w) in
  fst (cordova_raw (plugin_rm (x :: l) o)
                   (proc (entered this Undefined Undefined w))) = Some e ->
  exists p',
    removePlugins this (x :: l) w
    = (Threw (escalated e),
       World p' (consoleVerbose w)
             (out w ++ ConsoleDebug "Removing Cordova plugins" (x :: l)
                    :: Call (plugin_rm (x :: l) o) (Some e) :: complaint e)).
Proof.
  intros o Hfail. unfold removePlugins. unfold bind at 1. unfold emit. simpl.
  rewrite (runCommands_raw this (plugin_rm (x :: l))). simpl.
  fold o. unfold entered in Hfail |- *. simpl in Hfail |- *.
  rewrite Hfail. rewrite <- app_assoc. simpl. apply restored_shape.
Qed.

(** X17.  When the remove fails, plugin reconciliation stops there: it
    throws what [runCommands] makes of the failure, the remove is the only
    command issued and no progress is reported. *)
Theorem ensurePluginsAreSynchronized_remove_fails (plugins : Obj.t string)
    (cfg : jsarg (Obj.t string)) (installed : Obj.t (option string))
    (d : decision) (e : exn) (w : world) :
  let o := Options (negb (consoleVerbose w)) (consoleVerbose w) in
  let run := ensurePluginsAreSynchronized this plugins cfg w in
  installedPluginsOf this w = Returned installed ->
  reconcile plugins installed = Returned d ->
  toRemove d <> [] ->
  fst (cordova_raw (plugin_rm (toRemove d) o)
                   (proc (entered this Undefined Undefined w))) = Some e ->
  fst run = Threw (match e with CordovaError _ => ExitWithCode 1 | _ => e end)
  /\ calls (out (snd run)) = calls (out w) ++ [plugin_rm (toRemove d) o]
  /\ reports (out (snd run)) = reports (out w).
Proof.
  intros o run Hw Hd Hrm Hfail.
  assert (Hrun : exists p' evs,
    run = (Threw (escalated e),
           World p' (consoleVerbose w) (out w ++ evs))
    /\ calls evs = [plugin_rm (toRemove d) o] /\ reports evs = []).
  { subst run.
    rewrite ensurePluginsAreSynchronized_perform, Hw, Hd.
    unfold perform. unfold bind at 1.
    set (announce := if negb (Obj.isEmpty (fromLocalPath d)) then _ else _).
    assert (Hannounce : exists evs,
      announce w
      = (Returned tt, World (proc w) (consoleVerbose w) (out w ++ evs))
      /\ calls evs = [] /\ reports evs = []).
    { subst announce. destruct (negb (Obj.isEmpty (fromLocalPath d))).
      - eexists. split; [reflexivity | split; reflexivity].
      - exists []. unfold ret. rewrite app_nil_r. now destruct w. }
    destruct Hannounce as (evs0 & -> & Hcalls0 & Hreports0).
    destruct (reinstallAll d || negb (Obj.isEmpty (fromLocalPath d))) eqn:Hgo.
    - unfold enterJob. unfold bind at 1. unfold emit. simpl.
      unfold bind at 1.
      destruct (toRemove d) as [|x l] eqn:Hl; [now elim Hrm|].
      destruct (@removePlugins_fails x l e
        (World (proc w) (consoleVerbose w)
               ((out w ++ evs0) ++ [EnterJob "installing Cordova plugins"]))
        Hfail) as [p' ->].
      exists p'. eexists. split.
      + simpl. rewrite <- !app_assoc. reflexivity.
      + rewrite !calls_app, !reports_app, Hcalls0, Hreports0. simpl.
        split; now destruct e.
    - destruct (reconcile_idle _ _ Hd Hgo) as [Hnone _]. contradiction. }
  destruct Hrun as (p' & evs & -> & Hcalls & Hreports). simpl.
  rewrite calls_app, reports_app, Hcalls, Hreports, app_nil_r.
  repeat split.
Qed.

(** X26.  A [null] configuration is not replaced by the default one.
    When there is a plugin to install and the toolchain carries out the
    remove, plugin reconciliation given [null] throws the [TypeError] of
    the engine at the first add: the remove has been done and the
    progress 0 reported, and no add is asked of the toolchain. *)
Theorem ensurePluginsAreSynchronized_null_configuration
    (plugins : Obj.t string) (installed : Obj.t (option string))
    (d : decision) (w : world) :
  let o := Options (negb (consoleVerbose w)) (consoleVerbose w) in
  let run := ensurePluginsAreSynchronized this plugins Null w in
  installedPluginsOf this w = Returned installed ->
  reconcile plugins installed = Returned d ->
  toInstall d <> [] ->
  (forall c p, fst (cordova_raw c p) = None) ->
  fst run = Threw TypeError
  /\ calls (out (snd run))
     = calls (out w)
       ++ match toRemove d with
          | [] => []
          | names => [plugin_rm names o]
          end
  /\ reports (out (snd run))
     = reports (out w) ++ [(0, Obj.size (toInstall d))].
Proof.
  intros o run Hw Hd Hadd Hok.
  assert (Hrun : exists p' evs,
    run = (Threw TypeError, World p' (consoleVerbose w) (out w ++ evs))
    /\ calls evs = match toRemove d with
                   | [] => []
                   | names => [plugin_rm names o]
                   end
    /\ reports evs = [(0, Obj.size (toInstall d))]).
  { subst run.
    rewrite ensurePluginsAreSynchronized_perform, Hw, Hd.
    unfold perform. unfold bind at 1.
    set (announce := if negb (Obj.isEmpty (fromLocalPath d)) then _ else _).
    assert (Hannounce : exists evs,
      announce w
      = (Returned tt, World (proc w) (consoleVerbose w) (out w ++ evs))
      /\ calls evs = [] /\ reports evs = []).
    { subst announce. destruct (negb (Obj.isEmpty (fromLocalPath d))).
      - eexists. split; [reflexivity | split; reflexivity].
      - exists []. unfold ret. rewrite app_nil_r. now destruct w. }
    destruct Hannounce as (evs0 & -> & Hcalls0 & Hreports0).
    destruct (reinstallAll d || negb (Obj.isEmpty (fromLocalPath d))) eqn:Hgo.
    - unfold enterJob. unfold bind at 1. unfold emit. simpl.
      unfold bind at 1.
      destruct (removePlugins_completes (toRemove d)
        (World (proc w) (consoleVerbose w)
               ((out w ++ evs0) ++ [EnterJob "installing Cordova plugins"]))
        Hok) as [p1 ->].
      simpl consoleVerbose; simpl out.
      unfold installPlugins. unfold bind at 1. unfold emit. simpl.
      destruct (toInstall d) as [|[name version] l]; [now elim Hadd|].
      exists p1. eexists. split.
      + simpl. rewrite <- !app_assoc. reflexivity.
      + rewrite !calls_app, !reports_app, Hcalls0, Hreports0. simpl.
        split; [|now destruct (toRemove d)].
        destruct (toRemove d); reflexivity.
    - destruct (reconcile_idle _ _ Hd Hgo) as [_ Hnone]. contradiction. }
  destruct Hrun as (p' & evs & -> & Hcalls & Hreports). simpl.
  rewrite calls_app, reports_app, Hcalls, Hreports.
  repeat split.
Qed.
End PluginRuns.

Section TarballInSync.
Context `{Externals}.
Variable this : CordovaProject.

(** X19.  A plugin desired by the tarball URL of a commit and installed
    from the git URL that URL converts to, at the same commit, is in
    sync: plugin reconciliation returns and leaves the world as it is. *)
Theorem ensurePluginsAreSynchronized_tarball_in_sync
    (name org repo sha : string) (cfg : jsarg (Obj.t string)) (w : world) :
  truthy org = true -> truthy repo = true ->
  allChars nameChar org = true -> allChars nameChar repo = true ->
  String.length sha = 40 -> allChars isLowerHex sha = true ->
  isUrlWithSha ("https://github.com/" +++ org +++ "/" +++ repo
                  +++ "/tarball/" +++ sha) = true ->
  isUrlWithFileScheme ("https://github.com/" +++ org +++ "/" +++ repo
                         +++ "/tarball/" +++ sha) = false ->
  readFetchJson (disk (proc w)) (pathJoin (pluginsDir this) "fetch.json")
  = Returned [(name, git ("https://github.com/" +++ org +++ "/" +++ repo
                            +++ ".git") sha)] ->
  ensurePluginsAreSynchronized this
    [(name, "https://github.com/" +++ org +++ "/" +++ repo
              +++ "/tarball/" +++ sha)] cfg w
  = (Returned tt, w).
Proof.
  intros Horg Hrepo Horg' Hrepo' Hlen Hhex Hsha Hfile Hread.
  assert (Hinstalled : installedPluginsOf this w
    = Returned [(name, Some ("https://github.com/" +++ org +++ "/" +++ repo
                               +++ ".git#" +++ sha))]).
  { unfold installedPluginsOf. rewrite Hread.
    unfold obind, Underscore.object. simpl.
    do 4 f_equal. rewrite !sapp_assoc. simpl. rewrite !sapp_assoc.
    reflexivity. }
  assert (Hnorm :
    normalizedVersion ("https://github.com/" +++ org +++ "/" +++ repo
                         +++ "/tarball/" +++ sha)
    = Returned ("https://github.com/" +++ org +++ "/" +++ repo
                  +++ ".git#" +++ sha)).
  { unfold normalizedVersion. rewrite Hsha. unfold convertToGitUrl.
    rewrite tarball_match; auto using truthy_ne. }
  rewrite ensurePluginsAreSynchronized_perform, Hinstalled.
  rewrite reconcile_quiet; [reflexivity| | |].
  - intros n v [[= <- <-]|[]]. exact Hfile.
  - intros n v [[= <- <-]|[]] _.
    exists ("https://github.com/" +++ org +++ "/" +++ repo
              +++ ".git#" +++ sha).
    split; [exact Hnorm|split].
    + unfold Obj.has. simpl. now rewrite String.eqb_refl.
    + unfold prop. simpl. now rewrite String.eqb_refl.
  - intros n [<-|[]]. now left.
Qed.
End TarballInSync.

Lemma ensurePluginsAreSynchronized_tarball_in_sync_witness :
  let w :=
    Fixture.start
      (Fixture.Build []
         [("updater",
           git ("https://github.com/" +++ "meteor" +++ "/" +++ "updater"
                  +++ ".git") Fixture.sha)] []) in
  ensurePluginsAreSynchronized Fixture.project
    [("updater", "https://github.com/" +++ "meteor" +++ "/" +++ "updater"
                   +++ "/tarball/" +++ Fixture.sha)] Undefined w
  = (Returned tt, w).
Proof.
  intros w.
  exact (@ensurePluginsAreSynchronized_tarball_in_sync Fixture.externals
           Fixture.project "updater" "meteor" "updater" Fixture.sha
           Undefined w eq_refl eq_refl eq_refl eq_refl eq_refl eq_refl
           eq_refl eq_refl eq_refl).
Defined.

Lemma ensurePluginsAreSynchronized_rejects_first_witness :
  let w :=
    Fixture.start
      (Fixture.Build [] [("camera", registry "camera@0.9.0")]
         [("camera@1.0.0", ("camera", registry "camera@1.0.0"))]) in
  ensurePluginsAreSynchronized Fixture.project
    [("camera", "1.0.0");
     ("archive", "https://example.com/downloads/" +++ Fixture.sha)]
    Undefined w
  = (Threw (Error tarballUrlMessage), w).
Proof.
  intros w.
  apply (@ensurePluginsAreSynchronized_rejects_first Fixture.externals
           Fixture.project _ Undefined [("camera", Some "0.9.0")]
           "archive" ("https://example.com/downloads/" +++ Fixture.sha)
           (Error tarballUrlMessage) w).
  - reflexivity.
  - right. left. reflexivity.
  - reflexivity.
  - vm_compute. reflexivity.
Defined.

Lemma ensurePluginsAreSynchronized_in_sync_witness :
  let w :=
    Fixture.start
      (Fixture.Build [] [("camera", registry "camera@1.0.0")] []) in
  ensurePluginsAreSynchronized Fixture.project [("camera", "1.0.0")]
                               Undefined w
  = (Returned tt, w).
Proof.
  intros w.
  apply (@ensurePluginsAreSynchronized_in_sync Fixture.externals
           Fixture.project [("camera", "1.0.0")] Undefined
           [("camera", Some "1.0.0")] w).
  - reflexivity.
  - intros name version [[= <- <-]|[]]. reflexivity.
  - intros name version [[= <- <-]|[]] _. exists "1.0.0". repeat split.
  - simpl. intuition.
Defined.

Lemma reconcile_stale_plugin_witness :
  exists d,
    reconcile [("camera", "1.0.0")]
              [("camera", Some "1.0.0"); ("legacy", Some "2.0.0")]
    = Returned d
    /\ reinstallAll d = true
    /\ toRemove d = ["camera"; "legacy"]
    /\ toInstall d = [("camera", "1.0.0")].
Proof.
  apply (@reconcile_stale_plugin Fixture.externals
           [("camera", "1.0.0")]
           [("camera", Some "1.0.0"); ("legacy", Some "2.0.0")] "legacy").
  - intros name version [[= <- <-]|[]] _. exists "1.0.0". reflexivity.
  - simpl. tauto.
  - simpl. intros [E|[]]. discriminate E.
Defined.

Lemma ensurePluginsAreSynchronized_order_witness :
  let w :=
    Doubles.start Doubles.obedient
      (Fixture.Build [] [("legacy", registry "legacy@2.0.0")] []) in
  exists w',
    @ensurePluginsAreSynchronized Doubles.obedient Fixture.project
      [("camera", "1.0.0"); ("viewer", "file:///plugins/viewer")] Undefined w
    = (Returned tt, w')
    /\ calls (out w')
       = [plugin_rm ["legacy"] (Options true false);
          plugin_add "camera@1.0.0" (Options true false);
          plugin_add "/plugins/viewer" (Options true false)].
Proof.
  intros w.
  apply (@ensurePluginsAreSynchronized_order Doubles.obedient Fixture.project
           [("camera", "1.0.0"); ("viewer", "file:///plugins/viewer")]
           Undefined [("legacy", Some "2.0.0")]
           (Decision true [("viewer", "file:///plugins/viewer")] ["legacy"]
              [("camera", "1.0.0"); ("viewer", "file:///plugins/viewer")])
           w).
  - discriminate.
  - reflexivity.
  - vm_compute. reflexivity.
  - intros entry [<-|[<-|[]]]; eexists; vm_compute; reflexivity.
  - intros c p. reflexivity.
Defined.

Lemma ensurePluginsAreSynchronized_null_configuration_witness :
  let w :=
    Doubles.start Doubles.obedient
      (Fixture.Build [] [("legacy", registry "legacy@2.0.0")] []) in
  let run :=
    @ensurePluginsAreSynchronized Doubles.obedient Fixture.project
      [("camera", "1.0.0")] Null w in
  fst run = Threw TypeError
  /\ calls (out (snd run)) = [plugin_rm ["legacy"] (Options true false)]
  /\ reports (out (snd run)) = [(0, 1)].
Proof.
  intros w run.
  apply (@ensurePluginsAreSynchronized_null_configuration Doubles.obedient
           Fixture.project [("camera", "1.0.0")]
           [("legacy", Some "2.0.0")]
           (Decision true [] ["legacy"] [("camera", "1.0.0")]) w).
  - reflexivity.
  - vm_compute. reflexivity.
  - discriminate.
  - intros c p. reflexivity.
Defined.

Lemma ensurePluginsAreSynchronized_ignores_configuration_witness :
  let w :=
    Doubles.start Doubles.obedient
      (Fixture.Build [] [("legacy", registry "legacy@2.0.0")] []) in
  @ensurePluginsAreSynchronized Doubles.obedient Fixture.project
    [("camera", "1.0.0")] (Given [("camera", "APP_ID=1234")]) w
  = @ensurePluginsAreSynchronized Doubles.obedient Fixture.project
      [("camera", "1.0.0")] Undefined w.
Proof.
  intros w.
  apply (@ensurePluginsAreSynchronized_ignores_configuration
           Doubles.obedient Fixture.project); discriminate.
Defined.

Lemma ensurePluginsAreSynchronized_remove_fails_witness :
  let w :=
    Doubles.start Doubles.refusing
      (Fixture.Build [] [("legacy", registry "legacy@2.0.0")] []) in
  let run :=
    @ensurePluginsAreSynchronized Doubles.refusing Fixture.project
      [("camera", "1.0.0")] Undefined w in
  fst run = Threw (ExitWithCode 1)
  /\ calls (out (snd run)) = [plugin_rm ["legacy"] (Options true false)]
  /\ reports (out (snd run)) = [].
Proof.
  intros w run.
  apply (@ensurePluginsAreSynchronized_remove_fails Doubles.refusing
           Fixture.project [("camera", "1.0.0")] Undefined
           [("legacy", Some "2.0.0")]
           (Decision true [] ["legacy"] [("camera", "1.0.0")])
           (CordovaError "refused") w).
  - reflexivity.
  - vm_compute. reflexivity.
  - discriminate.
  - reflexivity.
Defined.

(** * Creating the project *)

(** [s.replace(re, replacement)] for a pattern with the global flag and a
    replacement without [$] sequences: the matches are replaced from left
    to right, and after an empty match one character is copied. *)
Fixpoint replaceFrom (r : regex) (replacement : string) (fuel : nat)
    (pre s : string) : string :=
  match fuel with
  | O => s
  | S fuel' =>
      match exec r (MState pre s []) with
      | st :: _ =>
          if Nat.ltb (String.length (rest st)) (String.length s) then
            replacement
              +++ replaceFrom r replacement fuel' (seen st) (rest st)
          else
            match s with
            | EmptyString => replacement
            | String c tl =>
                replacement
                  +++ String c (replaceFrom r replacement fuel'
                                            (pre +++ String c EmptyString) tl)
            end
      | [] =>
          match s with
          | EmptyString => EmptyString
          | String c tl =>
              String c (replaceFrom r replacement fuel'
                                    (pre +++ String c EmptyString) tl)
          end
      end
  end.

Definition re_replace_all (r : regex) (replacement s : string) : string :=
  replaceFrom r replacement (S (String.length s)) EmptyString s.

(** [[a-zA-Z\d_$.]] *)
Definition isAppIdChar (c : ascii) : bool :=
  (("a" <=? c)%char && (c <=? "z")%char)
  || (("A" <=? c)%char && (c <=? "Z")%char)
  || (("0" <=? c)%char && (c <=? "9")%char)
  || Ascii.eqb c "_" || Ascii.eqb c "$" || Ascii.eqb c ".".

(** [/[^a-zA-Z\d_$.]/g] *)
Definition appIdPattern : regex := Cls (fun c => negb (isAppIdChar c)).

(** The identifier [createIfNeeded] gives to a new project. *)
Definition appIdOf (appName : string) : string :=
  "com.meteor.userapps." +++ re_replace_all appIdPattern "_" appName.

(** What [createIfNeeded] needs besides: [files.exists],
    [files.pathDirname], [files.mkdir_p] and [cordova.raw.create]. *)
Class Scaffold `{Externals} : Type := {
  files_exists : Disk -> string -> bool;
  files_pathDirname : string -> string;
  files_mkdir_p : string -> Disk -> Disk;
  cordova_raw_create :
    string -> string -> string -> process Disk -> option exn * process Disk
}.

Section Creation.
Context `{Scaffold}.
Variable this : CordovaProject.

(** [cordova.raw.create(path, appId, appName)], awaited. *)
Definition raw_create (path appId name : string) : M unit :=
  fun w =>
    let (failure, p) := cordova_raw_create path appId name (proc w) in
    (match failure with None => Returned tt | Some e => Threw e end,
     World p (consoleVerbose w) (out w)).

Definition createIfNeeded : M unit :=
  fun w =>
    if negb (files_exists (disk (proc w)) (projectRoot this)) then
      let w1 :=
        World (Process (cwd (proc w)) (spawnEnv (proc w))
                 (files_mkdir_p (files_pathDirname (projectRoot this))
                                (disk (proc w))))
              (consoleVerbose w) (out w) in
      let appId := appIdOf (appName this) in
      (emit (ConsoleDebug "Creating Cordova project" []) ;;
       runCommands this
         (raw_create (convertToOSPath (projectRoot this)) appId (appName this))
         Undefined Null) w1
    else (Returned tt, w).
End Creation.

(** The replacement of single characters, one by one. *)
Fixpoint substitute (p : ascii -> bool) (replacement s : string) : string :=
  match s with
  | EmptyString => EmptyString
  | String c tl =>
      if p c then replacement +++ substitute p replacement tl
      else String c (substitute p replacement tl)
  end.

Lemma replaceFrom_Cls (p : ascii -> bool) (replacement : string) :
  forall (s pre : string) (fuel : nat),
    String.length s < fuel ->
    replaceFrom (Cls p) replacement fuel pre s = substitute p replacement s.
Proof.
  induction s as [|c s IH]; intros pre fuel Hfuel;
    (destruct fuel as [|fuel]; [lia|]); simpl.
  - reflexivity.
  - unfold eat; simpl. simpl in Hfuel.
    destruct (p c); simpl.
    + assert (Hlt : Nat.ltb (String.length s) (S (String.length s)) = true)
        by (apply Nat.ltb_lt; lia).
      rewrite Hlt. rewrite IH by lia. reflexivity.
    + rewrite IH by lia. reflexivity.
Qed.

Lemma substitute_legal (s : string) :
  allChars isAppIdChar
    (substitute (fun c => negb (isAppIdChar c)) "_" s) = true
  /\ String.length (substitute (fun c => negb (isAppIdChar c)) "_" s)
     = String.length s.
Proof.
  induction s as [|c s [IHok IHlen]]; simpl; [now split|].
  destruct (isAppIdChar c) eqn:Hc; simpl.
  - rewrite Hc, IHok, IHlen. now split.
  - rewrite IHok, IHlen. now split.
Qed.

(** X20.  The identifier of a new project is made of characters of
    [[a-zA-Z0-9_$.]] only, whatever the name of the application, and is as
    long as the name and the prefix [com.meteor.userapps.] together. *)
Theorem appIdOf_legal (appName : string) :
  allChars isAppIdChar (appIdOf appName) = true
  /\ String.length (appIdOf appName) = 20 + String.length appName.
Proof.
  unfold appIdOf, re_replace_all, appIdPattern.
  rewrite replaceFrom_Cls by lia.
  destruct (substitute_legal appName) as [Hok Hlen].
  rewrite allChars_app, slength_app, Hok, Hlen. now split.
Qed.

(** X21.  A name made of characters of [[a-zA-Z0-9_$.]] is kept as it is
    in the identifier; no character is replaced without need. *)
Theorem appIdOf_keeps_legal_names (appName : string) :
  allChars isAppIdChar appName = true ->
  appIdOf appName = "com.meteor.userapps." +++ appName.
Proof.
  intros Hok. unfold appIdOf, re_replace_all, appIdPattern.
  rewrite replaceFrom_Cls by lia. f_equal.
  induction appName as [|c s IH]; simpl; [reflexivity|].
  simpl in Hok. apply andb_prop in Hok. destruct Hok as [Hc Hs].
  rewrite Hc. simpl. now rewrite IH.
Qed.

Lemma appIdOf_keeps_legal_names_witness :
  appIdOf "todos.v2_beta" = "com.meteor.userapps." +++ "todos.v2_beta".
Proof.
  apply appIdOf_keeps_legal_names. vm_compute. reflexivity.
Defined.

Example appIdOf_hyphens :
  appIdOf "my-first app!" = "com.meteor.userapps.my_first_app_".
Proof. vm_compute. reflexivity. Qed.

Section CreationFacts.
Context `{Scaffold}.
Variable this : CordovaProject.

(** X22.  A project whose root is missing is created by a call of the
    toolchain that runs in the working directory of the caller, not in the
    root that does not exist yet, with the identifier of [appIdOf]; a
    [CordovaError] of that call ends in [ExitWithCode(1)].  A project
    whose root exists is left alone. *)
Theorem createIfNeeded_in_callers_directory (w : world) :
  let started :=
    Process (cwd (proc w)) (defaultEnvWithPathsAdded [])
            (files_mkdir_p (files_pathDirname (projectRoot this))
                           (disk (proc w))) in
  let created :=
    cordova_raw_create (convertToOSPath (projectRoot this))
                       (appIdOf (appName this)) (appName this) started in
  if files_exists (disk (proc w)) (projectRoot this)
  then createIfNeeded this w = (Returned tt, w)
  else
    fst (createIfNeeded this w)
    = match fst created with
      | None => Returned tt
      | Some (CordovaError _) => Threw (ExitWithCode 1)
      | Some e => Threw e
      end
    /\ disk (proc (snd (createIfNeeded this w))) = disk (snd created).
Proof.
  intros started created. unfold createIfNeeded.
  destruct (files_exists (disk (proc w)) (projectRoot this));
    [reflexivity|].
  simpl negb. cbv iota. unfold bind, emit. cbv beta iota.
  rewrite runCommands_spec. unfold entered, raw_create. simpl.
  fold started. fold created.
  destruct created as [[e|] p]; simpl.
  - unfold restored. destruct (truthy (cwd (proc w))), e; simpl; now split.
  - unfold restored. destruct (truthy (cwd (proc w))); simpl; now split.
Qed.
End CreationFacts.

(** * Checking the requirements of a platform *)

(** One requirement of the answer of [cordova.raw.requirements]:
    [req_reason] is [metadata && metadata.reason]. *)
Record requirement : Type := Requirement {
  req_id : string;
  req_name : string;
  req_installed : bool;
  req_reason : option string
}.

(** What the answer holds for one platform: the array of its requirements,
    or a [CordovaError]. *)
Inductive requirementsOf : Type :=
| RequirementList (l : list requirement)
| RequirementError (message : string).

(** The lines [checkPlatformRequirements] prints, by the function of
    [Console] that prints them. *)
Inductive notice : Type :=
| Warn (line : string)
| Info (line : string)
| ErrorLine (line : string)
| Success (line : string)
| FailInfo (line : string).

(** What [checkPlatformRequirements] needs besides: [process.platform],
    [displayNameForPlatform] of [cordova/index.js], [Console.command] and
    [cordova.raw.requirements]. *)
Class Host `{Externals} : Type := {
  process_platform : string;
  displayNameForPlatform : string -> string;
  Console_command : string -> string;
  cordova_raw_requirements :
    list string -> options -> process Disk ->
    outcome (jsarg (Obj.t requirementsOf)) * process Disk
}.

(** [_.reject(list, predicate)] *)
Definition reject {A} (l : list A) (predicate : A -> bool) : list A :=
  filter (fun x => negb (predicate x)) l.

Section Requirements.
Context `{Host}.
Variable this : CordovaProject.

(** [cordova.raw.requirements(platforms, this.defaultOptions)], awaited. *)
Definition raw_requirements (platforms : list string)
  : M (jsarg (Obj.t requirementsOf)) :=
  o <- defaultOptions ;;
  fun w =>
    let (answer, p) := cordova_raw_requirements platforms o (proc w) in
    (answer, World p (consoleVerbose w) (out w)).

(** The line printed for one requirement.  The loop variable is not
    declared in the source; the file is run as sloppy code (its loader
    assigns undeclared names as well), where the loop assigns a global. *)
Definition requirementLine (r : requirement) : notice :=
  let name := req_name r in
  if req_installed r then Success name
  else
    match req_reason r with
    | Some reason =>
        if truthy reason then FailInfo (name +++ ": " +++ reason)
        else FailInfo name
    | None => FailInfo name
    end.

(** The value of the method, with the lines it prints in their order. *)
Definition checkPlatformRequirements (platform : string)
  : M (bool * list notice) :=
  if String.eqb platform "ios" && negb (String.eqb process_platform "darwin")
  then
    ret (false,
         [Warn "Currently, it is only possible to build iOS apps on an OS X system."])
  else
    installedPlatforms <- listInstalledPlatforms this ;;
    let inProject := Underscore.contains installedPlatforms platform in
    if negb inProject then
      ret (false,
           [Warn ("Please add the " +++ displayNameForPlatform platform
                  +++ " platform to your project first.");
            Info ("Run: "
                  +++ Console_command ("meteor add-platform " +++ platform))])
    else
      allRequirements <-
        runCommands this (raw_requirements [platform]) Undefined Undefined ;;
      let requirements :=
        match allRequirements with
        | Given all => Obj.get all platform
        | _ => None
        end in
      match requirements with
      | None =>
          ret (false,
               [ErrorLine ("Failed to check requirements for platform "
                           +++ displayNameForPlatform platform)])
      | Some (RequirementError message) =>
          ret (false, [ErrorLine ("cordova: " +++ message)])
      | Some (RequirementList requirements) =>
          let requirements :=
            reject requirements
                   (fun requirement =>
                      String.eqb (req_id requirement) "ios-deploy") in
          let satisfied := forallb req_installed requirements in
          ret (satisfied,
               if negb satisfied then
                 Info ""
                 :: Info ("Make sure all installation requirements are satisfied before running or building for "
                          +++ displayNameForPlatform platform +++ ":")
                 :: map requirementLine requirements
               else [])
      end.
End Requirements.

(** A workstation for the examples: Linux, and a toolchain that gives
    [answer] to every question on requirements. *)
Module Workstation.
Definition host (answer : outcome (jsarg (Obj.t requirementsOf)))
  : @Host Fixture.externals := {|
  process_platform := "linux";
  displayNameForPlatform := fun platform => platform;
  Console_command := fun line => line;
  cordova_raw_requirements := fun _ _ p => (answer, p)
|}.

Definition onDisk : Fixture.build := Fixture.Build ["android"] [] [].

Definition android : list requirement :=
  [Requirement "java" "Java JDK" true None;
   Requirement "androidSdk" "Android SDK" true None;
   Requirement "ios-deploy" "ios-deploy" false (Some "not found")].
End Workstation.

Section RequirementFacts.
Context `{Host}.
Variable this : CordovaProject.

(** X23.  On a system other than OS X the check of [ios], and on any
    system the check of a platform that is not installed in the build
    project, gives [false] with a line of advice and leaves everything as
    it was: the toolchain is not asked, nothing is traced, the working
    directory is not touched. *)
Theorem checkPlatformRequirements_without_toolchain
    (platform : string) (w : world) :
  (platform = "ios" /\ process_platform <> "darwin")
  \/ ~ In platform
         (cordova_util_listPlatforms (disk (proc w))
                                     (convertToOSPath (projectRoot this))) ->
  exists advice lines,
    checkPlatformRequirements this platform w
    = (Returned (false, Warn advice :: lines), w).
Proof.
  intros Hcase. unfold checkPlatformRequirements.
  destruct (String.eqb platform "ios"
            && negb (String.eqb process_platform "darwin")) eqn:Hguard.
  - unfold ret. eauto.
  - unfold bind, listInstalledPlatforms.
    destruct Hcase as [[-> Hos] | Hout].
    + apply String.eqb_neq in Hos. rewrite Hos in Hguard. discriminate.
    + apply contains_not_In in Hout. rewrite Hout. unfold ret. simpl. eauto.
Qed.

(** X24.  For an installed platform whose requirements the toolchain
    lists, the check gives [true] exactly when every listed requirement
    other than [ios-deploy] is installed; it then prints nothing, and it
    leaves no event in the trace either way. *)
Theorem checkPlatformRequirements_verdict
    (platform : string) (w : world)
    (all : Obj.t requirementsOf) (l : list requirement)
    (p' : process Disk) :
  String.eqb platform "ios" && negb (String.eqb process_platform "darwin")
  = false ->
  In platform
     (cordova_util_listPlatforms (disk (proc w))
                                 (convertToOSPath (projectRoot this))) ->
  cordova_raw_requirements [platform]
    (Options (negb (consoleVerbose w)) (consoleVerbose w))
    (proc (entered this Undefined Undefined w))
  = (Returned (Given all), p') ->
  Obj.get all platform = Some (RequirementList l) ->
  exists verdict lines w',
    checkPlatformRequirements this platform w
    = (Returned (verdict, lines), w')
    /\ (verdict = true <->
        forall r, In r l -> req_id r <> "ios-deploy" ->
                  req_installed r = true)
    /\ (verdict = true -> lines = [])
    /\ out w' = out w.
Proof.
  intros Hguard Hin Hanswer Hentry. unfold checkPlatformRequirements.
  rewrite Hguard. unfold bind at 1. unfold listInstalledPlatforms.
  apply contains_In in Hin. rewrite Hin.
  change (negb true) with false. cbv iota.
  unfold bind at 1. rewrite runCommands_spec.
  unfold raw_requirements, bind, defaultOptions.
  replace (consoleVerbose (entered this Undefined Undefined w))
    with (consoleVerbose w) by reflexivity.
  rewrite Hanswer. cbv beta iota. rewrite Hentry. unfold ret.
  do 3 eexists. split; [reflexivity|]. split; [|split].
  - rewrite forallb_forall. unfold reject. split.
    + intros Hall r Hr Hid. apply Hall. apply filter_In. split; [assumption|].
      apply String.eqb_neq in Hid. now rewrite Hid.
    + intros Hall r Hr. apply filter_In in Hr. destruct Hr as [Hr Hid].
      apply Hall; [assumption|]. apply String.eqb_neq.
      now destruct (String.eqb (req_id r) "ios-deploy").
  - intros ->. reflexivity.
  - unfold restored, entered. destruct (truthy (cwd (proc w))); reflexivity.
Qed.

(** X25.  The check is not only advice: a [CordovaError] thrown by the
    question on requirements is printed with the hint and ends the check
    with [ExitWithCode(1)], as for every other command. *)
Theorem checkPlatformRequirements_escalates
    (platform message : string) (w : world) (p' : process Disk) :
  String.eqb platform "ios" && negb (String.eqb process_platform "darwin")
  = false ->
  In platform
     (cordova_util_listPlatforms (disk (proc w))
                                 (convertToOSPath (projectRoot this))) ->
  cordova_raw_requirements [platform]
    (Options (negb (consoleVerbose w)) (consoleVerbose w))
    (proc (entered this Undefined Undefined w))
  = (Threw (CordovaError message), p') ->
  fst (checkPlatformRequirements this platform w) = Threw (ExitWithCode 1)
  /\ out (snd (checkPlatformRequirements this platform w))
     = out w
       ++ [ConsoleError ("cordova: " +++ message);
           ConsoleError
             "Try running again with the --verbose option to help diagnose the issue."].
Proof.
  intros Hguard Hin Hanswer.
  assert (Hrun : checkPlatformRequirements this platform w
                 = (Threw (ExitWithCode 1),
                    restored (cwd (proc w))
                      (World p' (consoleVerbose w)
                         (out w ++ complaint (CordovaError message))))).
  { unfold checkPlatformRequirements.
    rewrite Hguard. unfold bind at 1. unfold listInstalledPlatforms.
    apply contains_In in Hin. rewrite Hin.
  change (negb true) with false. cbv iota.
    unfold bind at 1. rewrite runCommands_spec.
    unfold raw_requirements, bind, defaultOptions.
    replace (consoleVerbose (entered this Undefined Undefined w))
      with (consoleVerbose w) by reflexivity.
    rewrite Hanswer. reflexivity. }
  rewrite Hrun. split; [reflexivity|].
  unfold restored. destruct (truthy (cwd (proc w))); reflexivity.
Qed.
End RequirementFacts.

Lemma checkPlatformRequirements_without_toolchain_witness :
  exists advice lines,
    checkPlatformRequirements (H0 := Workstation.host (Returned Undefined))
      Fixture.project "ios" (Fixture.start Workstation.onDisk)
    = (Returned (false, Warn advice :: lines),
       Fixture.start Workstation.onDisk).
Proof.
  apply (@checkPlatformRequirements_without_toolchain
           _ (Workstation.host (Returned Undefined))).
  left. split; [reflexivity | discriminate].
Defined.

Lemma checkPlatformRequirements_verdict_witness :
  exists verdict lines w',
    checkPlatformRequirements
      (H0 := Workstation.host
               (Returned (Given [("android",
                                  RequirementList Workstation.android)])))
      Fixture.project "android" (Fixture.start Workstation.onDisk)
    = (Returned (verdict, lines), w')
    /\ (verdict = true <->
        forall r, In r Workstation.android -> req_id r <> "ios-deploy" ->
                  req_installed r = true)
    /\ (verdict = true -> lines = [])
    /\ out w' = out (Fixture.start Workstation.onDisk).
Proof.
  eapply (@checkPlatformRequirements_verdict
            _ (Workstation.host
                 (Returned (Given [("android",
                                    RequirementList Workstation.android)])))).
  - reflexivity.
  - simpl. left. reflexivity.
  - reflexivity.
  - reflexivity.
Defined.

Lemma checkPlatformRequirements_escalates_witness :
  fst (checkPlatformRequirements
         (H0 := Workstation.host (Threw (CordovaError "no SDK")))
         Fixture.project "android" (Fixture.start Workstation.onDisk))
  = Threw (ExitWithCode 1)
  /\ out (snd (checkPlatformRequirements
                 (H0 := Workstation.host (Threw (CordovaError "no SDK")))
                 Fixture.project "android"
                 (Fixture.start Workstation.onDisk)))
     = out (Fixture.start Workstation.onDisk)
       ++ [ConsoleError ("cordova: " +++ "no SDK");
           ConsoleError
             "Try running again with the --verbose option to help diagnose the issue."].
Proof.
  eapply (@checkPlatformRequirements_escalates
            _ (Workstation.host (Threw (CordovaError "no SDK")))).
  - reflexivity.
  - simpl. left. reflexivity.
  - reflexivity.
Defined.
